(** * DRF priority controller: scoring, gang filter, ranking and queue updates

    A shallow embedding of [Code/Controller.py] and
    [Code/kueue_integration.py], followed by the properties that the
    specification states about them.

    Conventions of the embedding.
    - A Python [float] is an exact rational ([Q]); equalities between
      scores are stated with [==] ([Qeq]).  Rounding error of the binary
      representation is outside the model.
    - A [datetime] is a number of microseconds ([Z]) on one common time
      line; the difference of two of them is a [timedelta] and
      [total_seconds] divides it by 10^6.
    - A Python [dict] is an association list in insertion order with at
      most one entry per key ([dict_set] keeps that shape).
    - [datetime.now()] and the Kubernetes API are inputs of the functions
      that use them. *)

From Stdlib Require Import List String Ascii Bool Arith ZArith QArith Qabs Lia.
From Stdlib Require Import Permutation Sorted DecimalString Lqa.
Import ListNotations.

Set Implicit Arguments.

(* ================================================================== *)
(** * Python primitives used by the sources *)
(* ================================================================== *)

Module Py.

Local Open Scope string_scope.

(** ** Insertion-ordered dictionaries *)

Section Dict.
Variables (K V : Type).
Variable keq : K -> K -> bool.

Definition dict := list (K * V).

(** [d.get(k)] / [d[k]] when [k in d]. *)
Fixpoint dict_get (k : K) (d : dict) : option V :=
  match d with
  | [] => None
  | (k', v) :: rest => if keq k k' then Some v else dict_get k rest
  end.

(** [k in d]. *)
Definition dict_contains (k : K) (d : dict) : bool :=
  match dict_get k d with Some _ => true | None => false end.

(** [d[k] = v]: overwrite in place, or append a new entry. *)
Fixpoint dict_set (k : K) (v : V) (d : dict) : dict :=
  match d with
  | [] => [(k, v)]
  | (k', v') :: rest =>
      if keq k k' then (k', v) :: rest else (k', v') :: dict_set k v rest
  end.

(** [d.get(k, default)]. *)
Definition dict_get_default (k : K) (default : V) (d : dict) : V :=
  match dict_get k d with Some v => v | None => default end.

(** Every key occurs once. *)
Fixpoint unique_keys (d : dict) : bool :=
  match d with
  | [] => true
  | (k, _) :: rest => negb (dict_contains k rest) && unique_keys rest
  end.
End Dict.

(** ** Strings *)

Fixpoint str_rev_acc (s acc : string) : string :=
  match s with
  | EmptyString => acc
  | String c s' => str_rev_acc s' (String c acc)
  end.

Definition str_rev (s : string) : string := str_rev_acc s EmptyString.

(** [s.endswith(suffix)]. *)
Definition endswith (s suffix : string) : bool :=
  String.prefix (str_rev suffix) (str_rev s).

(** [s[:-n]] for [n > 0]. *)
Definition drop_last (n : nat) (s : string) : string :=
  String.substring 0 (String.length s - n)%nat s.

(** [needle in hay] on strings. *)
Fixpoint str_contains (needle hay : string) : bool :=
  String.prefix needle hay ||
  match hay with
  | EmptyString => false
  | String _ hay' => str_contains needle hay'
  end.

Definition lower_ascii (c : ascii) : ascii :=
  let n := nat_of_ascii c in
  if (65 <=? n)%nat && (n <=? 90)%nat then ascii_of_nat (n + 32) else c.

(** [s.lower()], on ASCII text. *)
Fixpoint lower (s : string) : string :=
  match s with
  | EmptyString => EmptyString
  | String c s' => String (lower_ascii c) (lower s')
  end.

(** Truthiness of an [Optional[str]]: [None] and the empty string are
    false. *)
Definition truthy_opt_str (o : option string) : bool :=
  match o with
  | None => false
  | Some s => negb (String.eqb s "")
  end.

(** [str(n)] for a non-negative [int]. *)
Definition str_of_nat (n : nat) : string :=
  NilZero.string_of_uint (Nat.to_uint n).

(** ** Floats as rationals *)

Definition Qlt_bool (x y : Q) : bool := negb (Qle_bool y x).

(** [max(first, *rest)]: the first of the largest items. *)
Definition max_list (first : Q) (rest : list Q) : Q :=
  fold_left (fun m x => if Qlt_bool m x then x else m) rest first.

(** [int(x)]: truncation toward zero. *)
Definition int_of_float (x : Q) : Z := Z.quot (Qnum x) (Zpos (Qden x)).

(** The two conversions between text and [float] are builtins of the
    interpreter; the embedding takes them as an interface.
    [float_of_str s = None] stands for [ValueError]. *)
Class FloatText := {
  float_of_str : string -> option Q;
  str_of_float : Q -> string
}.

(** A reading of plain decimal numerals, [[+-]digits[.digits]], for
    running the embedding on concrete inputs.  The interpreter accepts
    more (exponents, surrounding blanks, [inf], [nan]); every text this
    reader accepts, the interpreter reads as the same number. *)
Definition digit_of (c : ascii) : option Z :=
  let n := nat_of_ascii c in
  if (48 <=? n)%nat && (n <=? 57)%nat then Some (Z.of_nat (n - 48)) else None.

Fixpoint scan_decimal (s : string) (mant : Z) (frac : option nat)
         (seen : bool) : option (Z * nat) :=
  match s with
  | EmptyString =>
      if seen then Some (mant, match frac with Some n => n | None => O end)
      else None
  | String c s' =>
      if Ascii.eqb c "."%char then
        match frac with
        | None => scan_decimal s' mant (Some O) seen
        | Some _ => None
        end
      else
        match digit_of c with
        | Some d => scan_decimal s' (10 * mant + d)%Z (option_map S frac) true
        | None => None
        end
  end.

Definition decimal_of_str (s : string) : option Q :=
  let '(neg, body) :=
    match s with
    | String "-"%char r => (true, r)
    | String "+"%char r => (false, r)
    | _ => (false, s)
    end in
  match scan_decimal body 0%Z None false with
  | Some (m, n) =>
      Some (Qmake (if neg then (- m)%Z else m) (Z.to_pos (10 ^ Z.of_nat n)))
  | None => None
  end.

Fixpoint frac_digits (fuel : nat) (num den : Z) : string :=
  match fuel with
  | O => EmptyString
  | S fuel' =>
      if (num =? 0)%Z then EmptyString
      else String (ascii_of_nat (48 + Z.to_nat (10 * num / den)))
                  (frac_digits fuel' ((10 * num) mod den)%Z den)
  end.

(** Positional rendering with at most 17 fractional digits; it is what
    [str] prints for a float with a short decimal expansion. *)
Definition decimal_str (x : Q) : string :=
  let num := Z.abs (Qnum x) in
  let den := Zpos (Qden x) in
  let fr := frac_digits 17 (num mod den)%Z den in
  (if (Qnum x <? 0)%Z then "-" else "")
    ++ NilZero.string_of_uint (N.to_uint (Z.to_N (num / den)))
    ++ "." ++ (if String.eqb fr "" then "0" else fr).

Definition decimal_text : FloatText :=
  {| float_of_str := decimal_of_str; str_of_float := decimal_str |}.

(** ** Sorting: [sorted(l, key=...)] and [l.sort(key=...)]

    Both are stable; a stable sort has one possible result, obtained
    here by insertion from the right. *)

Section Sorted.
Variable A : Type.
Variable key : A -> Q.

Fixpoint insert_by (x : A) (l : list A) : list A :=
  match l with
  | [] => [x]
  | y :: l' =>
      if Qle_bool (key x) (key y) then x :: y :: l'
      else y :: insert_by x l'
  end.

Fixpoint sorted_by (l : list A) : list A :=
  match l with
  | [] => []
  | x :: l' => insert_by x (sorted_by l')
  end.
End Sorted.

(** [list(enumerate(l, start))]. *)
Fixpoint enumerate (A : Type) (start : nat) (l : list A) : list (nat * A) :=
  match l with
  | [] => []
  | x :: l' => (start, x) :: enumerate (S start) l'
  end.

(** [l[i:j]]. *)
Definition slice (A : Type) (i j : nat) (l : list A) : list A :=
  firstn (j - i)%nat (skipn i l).

(** [range(0, stop, step)] for [step > 0]. *)
Definition range_step (stop step : nat) : list nat :=
  map (fun k => (k * step)%nat) (seq 0 ((stop + step - 1) / step)%nat).

End Py.

(* ================================================================== *)
(** * Controller.py *)
(* ================================================================== *)

Module Controller.
Import Py.
Local Open Scope string_scope.

(** ** Data model *)

Inductive JobPriority := NORMAL | URGENT.

Inductive ResourceType := CPU | GPU | MEMORY.

Definition JobPriority_eqb (a b : JobPriority) : bool :=
  match a, b with
  | NORMAL, NORMAL | URGENT, URGENT => true
  | _, _ => false
  end.

Definition ResourceType_eqb (a b : ResourceType) : bool :=
  match a, b with
  | CPU, CPU | GPU, GPU | MEMORY, MEMORY => true
  | _, _ => false
  end.

Definition resource_get (k : ResourceType) (d : dict ResourceType Q) :=
  dict_get ResourceType_eqb k d.

Record JobInfo := {
  name : string;
  namespace : string;
  priority : JobPriority;
  creation_timestamp : Z;
  resources : dict ResourceType Q;
  gang_scheduling : bool;
  gang_id : option string
}.

Record ClusterInfo := {
  total_resources : dict ResourceType Q;
  allocated_resources : dict ResourceType Q
}.

(** [timedelta.total_seconds()]. *)
Definition total_seconds (td : Z) : Q := Qmake td 1000000.

(** ** DRFScheduler *)

Record DRFScheduler := { aging_alpha : Q }.

(** [DRFScheduler.__init__(aging_alpha=0.1)]. *)
Definition DRFScheduler_init (alpha : option Q) : DRFScheduler :=
  {| aging_alpha := match alpha with Some a => a | None => 1 # 10 end |}.

(** One turn of the loop of [calculate_dominant_share]: the share that
    the item appends to [dominant_shares], if any. *)
Definition share_of (cluster_info : ClusterInfo)
           (item : ResourceType * Q) : option Q :=
  let '(resource_type, requested_amount) := item in
  match resource_get resource_type (total_resources cluster_info) with
  | Some total_resource =>
      if Qlt_bool 0 total_resource
      then Some (requested_amount / total_resource)
      else None
  | None => None
  end.

Fixpoint dominant_shares (cluster_info : ClusterInfo)
         (items : dict ResourceType Q) : list Q :=
  match items with
  | [] => []
  | item :: rest =>
      match share_of cluster_info item with
      | Some share => share :: dominant_shares cluster_info rest
      | None => dominant_shares cluster_info rest
      end
  end.

Definition calculate_dominant_share (job : JobInfo)
           (cluster_info : ClusterInfo) : Q :=
  match dominant_shares cluster_info (resources job) with
  | first :: rest => max_list first rest
  | [] => 0
  end.

(** [apply_aging]; [now] is the reading of [datetime.now()]. *)
Definition apply_aging (self : DRFScheduler) (now : Z)
           (dominant_share : Q) (job : JobInfo) : Q :=
  let time_diff := total_seconds (now - creation_timestamp job) / 3600 in
  let aging_factor := aging_alpha self * time_diff in
  let adjusted := dominant_share - aging_factor in
  if Qlt_bool 0 adjusted then adjusted else 0.

(** [calculate_priority_score]; [now] is the reading of
    [datetime.now()]. *)
Definition calculate_priority_score (self : DRFScheduler) (now : Z)
           (job : JobInfo) (cluster_info : ClusterInfo) : Q :=
  let dominant_share := calculate_dominant_share job cluster_info in
  let time_diff := total_seconds (now - creation_timestamp job) in
  let aging_factor := aging_alpha self * time_diff in
  let priority_weight : Q :=
    if JobPriority_eqb (priority job) URGENT then 0 else 1000 in
  priority_weight + dominant_share - aging_factor.

(** ** Objects read from the batch API

    [_extract_job_info] probes the requests object with [hasattr]: a
    field below is [Some] when the object has the attribute, with the
    quantity string as its value.  An object without these attributes (a
    plain [dict] has none of them) has [None] in all three. *)

Record Requests := {
  cpu : option string;
  memory : option string;
  nvidia_com_gpu : option string
}.

Record ResourceRequirements := { requests : option Requests }.

Record V1Container := { container_resources : option ResourceRequirements }.

Record V1Job := {
  metadata_name : string;
  metadata_namespace : string;
  metadata_creation_timestamp : Z;
  metadata_annotations : option (dict string string);
  spec_containers : list V1Container;
  status_phase : string;
  status_conditions : list string
}.

(** ** Exceptions *)

Inductive exn := ValueError.

Inductive result (A : Type) :=
| Ok (a : A)
| Raise (e : exn).
Arguments Raise {A} e.

Definition bind {A B : Type} (c : result A) (k : A -> result B) : result B :=
  match c with
  | Ok a => k a
  | Raise e => Raise e
  end.

Notation "x <- c ;; k" := (bind c (fun x => k))
  (at level 61, c at next level, right associativity).

(** [try: ... except Exception: return None]. *)
Definition except_none {A : Type} (c : result A) : option A :=
  match c with
  | Ok a => Some a
  | Raise _ => None
  end.

Section Parsing.
Context {FT : FloatText}.

(** [float(s)]. *)
Definition py_float (s : string) : result Q :=
  match float_of_str s with
  | Some q => Ok q
  | None => Raise ValueError
  end.

Definition _parse_cpu_request (cpu_str : string) : result Q :=
  if endswith cpu_str "m" then
    q <- py_float (drop_last 1 cpu_str) ;; Ok (q / 1000)
  else py_float cpu_str.

Definition _parse_memory_request (memory_str : string) : result Q :=
  if endswith memory_str "Ki" then
    q <- py_float (drop_last 2 memory_str) ;; Ok (q / 1024)
  else if endswith memory_str "Mi" then
    py_float (drop_last 2 memory_str)
  else if endswith memory_str "Gi" then
    q <- py_float (drop_last 2 memory_str) ;; Ok (q * 1024)
  else if endswith memory_str "Ti" then
    q <- py_float (drop_last 2 memory_str) ;; Ok (q * 1024 * 1024)
  else
    q <- py_float memory_str ;; Ok (q / (1024 * 1024)).

(** The three [if hasattr(...)] assignments of [_extract_job_info]. *)
Definition extract_requests (rq : Requests)
  : result (dict ResourceType Q) :=
  r1 <- match cpu rq with
        | Some s =>
            v <- _parse_cpu_request s ;;
            Ok (dict_set ResourceType_eqb CPU v [])
        | None => Ok []
        end ;;
  r2 <- match memory rq with
        | Some s =>
            v <- _parse_memory_request s ;;
            Ok (dict_set ResourceType_eqb MEMORY v r1)
        | None => Ok r1
        end ;;
  match nvidia_com_gpu rq with
  | Some s => v <- py_float s ;; Ok (dict_set ResourceType_eqb GPU v r2)
  | None => Ok r2
  end.

Definition extract_resources (job : V1Job)
  : result (dict ResourceType Q) :=
  match spec_containers job with
  | container :: _ =>
      match container_resources container with
      | Some rr =>
          match requests rr with
          | Some rq => extract_requests rq
          | None => Ok []
          end
      | None => Ok []
      end
  | [] => Ok []
  end.

Definition _extract_job_info (job : V1Job) : option JobInfo :=
  except_none (
    let priority :=
      match metadata_annotations job with
      | Some ann =>
          match dict_get String.eqb "priority" ann with
          | Some v => if String.eqb v "approved" then URGENT else NORMAL
          | None => NORMAL
          end
      | None => NORMAL
      end in
    resources <- extract_resources job ;;
    let '(gang_scheduling, gang_id) :=
      match metadata_annotations job with
      | Some ((_ :: _) as ann) =>
          (String.eqb
             (lower (dict_get_default String.eqb "gang-scheduling" "false" ann))
             "true",
           dict_get String.eqb "gang-id" ann)
      | _ => (false, None)
      end in
    Ok {| name := metadata_name job;
          namespace := metadata_namespace job;
          priority := priority;
          creation_timestamp := metadata_creation_timestamp job;
          resources := resources;
          gang_scheduling := gang_scheduling;
          gang_id := gang_id |}).

(** [get_pending_jobs]; [listing = None] when the API call raises
    [ApiException]. *)
Definition is_pending (job : V1Job) : bool :=
  String.eqb (status_phase job) "Pending" ||
  match status_conditions job with [] => true | _ => false end.

Fixpoint collect_pending (items : list V1Job) : list JobInfo :=
  match items with
  | [] => []
  | job :: rest =>
      if is_pending job then
        match _extract_job_info job with
        | Some job_info => job_info :: collect_pending rest
        | None => collect_pending rest
        end
      else collect_pending rest
  end.

Definition get_pending_jobs (listing : option (list V1Job))
  : list JobInfo :=
  match listing with
  | Some items => collect_pending items
  | None => []
  end.
End Parsing.

(** ** Gang filter *)

(** A [JobInfo] defines neither [__bool__] nor [__len__]: it is true. *)
Definition JobInfo_bool (job : JobInfo) : bool := true.

(** [if gid not in groups: groups[gid] = []] then
    [groups[gid].append(job)]. *)
Fixpoint group_append (gid : string) (job : JobInfo)
         (groups : dict string (list JobInfo)) : dict string (list JobInfo) :=
  match groups with
  | [] => [(gid, [job])]
  | (g, members) :: rest =>
      if String.eqb gid g then (g, (members ++ [job])%list) :: rest
      else (g, members) :: group_append gid job rest
  end.

Definition group_step (groups : dict string (list JobInfo)) (job : JobInfo)
  : dict string (list JobInfo) :=
  match gang_id job with
  | Some gid =>
      if gang_scheduling job && truthy_opt_str (gang_id job)
      then group_append gid job groups
      else groups
  | None => groups
  end.

Definition gang_groups (jobs : list JobInfo) : dict string (list JobInfo) :=
  fold_left group_step jobs [].

Fixpoint ready_gangs (groups : dict string (list JobInfo)) : list JobInfo :=
  match groups with
  | [] => []
  | (_, gang_jobs) :: rest =>
      if forallb JobInfo_bool gang_jobs
      then (gang_jobs ++ ready_gangs rest)%list
      else ready_gangs rest
  end.

Definition handle_gang_scheduling (jobs : list JobInfo) : list JobInfo :=
  let non_gang_jobs := filter (fun job => negb (gang_scheduling job)) jobs in
  (ready_gangs (gang_groups jobs) ++ non_gang_jobs)%list.

(** ** Scoring and ranking of one tick

    [clock i] is the reading of [datetime.now()] taken when the [i]-th
    schedulable job is scored; [cluster_info = None] when
    [get_cluster_info] fails. *)

Definition score_jobs (drf_scheduler : DRFScheduler) (clock : nat -> Z)
           (cluster_info : ClusterInfo) (jobs : list JobInfo)
  : list (JobInfo * Q) :=
  map (fun '(i, job) =>
         (job, calculate_priority_score drf_scheduler (clock i) job cluster_info))
      (enumerate 0 jobs).

Definition calculate_job_priorities (drf_scheduler : DRFScheduler)
           (clock : nat -> Z) (pending_jobs : list JobInfo)
           (cluster_info : option ClusterInfo) : list (JobInfo * Q) :=
  match pending_jobs with
  | [] => []
  | _ :: _ =>
      match cluster_info with
      | None => []
      | Some cluster =>
          let schedulable_jobs := handle_gang_scheduling pending_jobs in
          sorted_by snd (score_jobs drf_scheduler clock cluster schedulable_jobs)
      end
  end.

End Controller.

(* ================================================================== *)
(** * kueue_integration.py *)
(* ================================================================== *)

Module Kueue.
Import Py Controller.
Local Open Scope string_scope.

(** A workload as the queue lists it: [metadata.name] and
    [metadata.namespace]. *)
Record Workload := {
  workload_name : string;
  workload_namespace : string
}.

Record PatchBody := {
  annotations : dict string string;
  spec_priority : Z
}.

Record PatchCall := {
  patch_namespace : string;
  patch_name : string;
  body : PatchBody
}.

(** The custom-objects API.  The listing is [None] when the call raises
    [ApiException]; a patch answers [false] when the call raises. *)
Class CustomObjectsApi := {
  list_cluster_custom_object : option (list Workload);
  patch_namespaced_custom_object : PatchCall -> bool
}.

(** What one call of [update_workload_priority] did: the patch it sent,
    if it found a workload, and the boolean it returned. *)
Record UpdateOutcome := {
  sent : option PatchCall;
  success : bool
}.

(** What [update_all_job_priorities] did: the batches in the order they
    were submitted, the outcome of every item, and the two counters of
    its log line. *)
Record UpdateReport := {
  batches : list (list (nat * (JobInfo * Q)));
  outcomes : list (list UpdateOutcome);
  success_count : nat;
  total_count : nat
}.

Section Updater.
Context {FT : FloatText} {API : CustomObjectsApi}.

Definition _get_workload_for_job (job : JobInfo) : option Workload :=
  match list_cluster_custom_object with
  | Some items =>
      find (fun workload => str_contains (name job) (workload_name workload))
           items
  | None => None
  end.

(** The [patch_body] of [_update_workload_priority]. *)
Definition patch_body (priority_score : Q) (rank : nat) : PatchBody :=
  {| annotations :=
       [("drf-scheduler/priority-score", str_of_float priority_score);
        ("drf-scheduler/rank", str_of_nat rank);
        ("drf-scheduler/updated-by", "drf-controller")];
     spec_priority := int_of_float (priority_score * 1000) |}.

(** [_update_workload_priority]: the call it sends, and whether the
    call went through (it re-raises otherwise). *)
Definition _update_workload_priority (workload : Workload)
           (priority_score : Q) (rank : nat) : PatchCall * bool :=
  let call := {| patch_namespace := workload_namespace workload;
                 patch_name := workload_name workload;
                 body := patch_body priority_score rank |} in
  (call, patch_namespaced_custom_object call).

Definition update_workload_priority (job : JobInfo) (priority_score : Q)
           (rank : nat) : UpdateOutcome :=
  match _get_workload_for_job job with
  | None => {| sent := None; success := false |}
  | Some workload =>
      let '(call, ok) :=
        _update_workload_priority workload priority_score rank in
      {| sent := Some call; success := ok |}
  end.

Definition batch_size : nat := 10.

Definition patch_job (args : nat * (JobInfo * Q)) : UpdateOutcome :=
  let '(rank, (job, priority_score)) := args in
  update_workload_priority job priority_score rank.

(** [sum(results)] on a list of booleans. *)
Definition sum_results (results : list UpdateOutcome) : nat :=
  List.length (filter success results).

Definition update_all_job_priorities (job_priorities : list (JobInfo * Q))
  : UpdateReport :=
  let job_priorities := sorted_by snd job_priorities in
  let total_count := List.length job_priorities in
  let batches :=
    map (fun i =>
           enumerate (i + 1) (slice i (i + batch_size) job_priorities))
        (range_step total_count batch_size) in
  let outcomes := map (map patch_job) batches in
  {| batches := batches;
     outcomes := outcomes;
     success_count :=
       fold_left (fun count results => (count + sum_results results)%nat)
                 outcomes O;
     total_count := total_count |}.
End Updater.

End Kueue.

(* ================================================================== *)
(** * Controller.py: the cluster observer and one pass of the loop *)
(* ================================================================== *)

Module Observer.
Import Py Controller Kueue.
Local Open Scope string_scope.

(** A node as [get_cluster_info] reads it.  [status.capacity] and
    [status.allocatable] are probed with [hasattr] like the requests of a
    container, for the same three attributes. *)
Record V1Node := {
  status_capacity : option Requests;
  status_allocatable : option Requests
}.

(** The accumulators of [get_cluster_info], with their three keys. *)
Definition zero_resources : dict ResourceType Q :=
  [(CPU, 0%Q); (MEMORY, 0%Q); (GPU, 0%Q)].

(** [acc[k] += v]; the key is in [acc] from the start. *)
Definition dict_add (k : ResourceType) (v : Q) (acc : dict ResourceType Q)
  : dict ResourceType Q :=
  dict_set ResourceType_eqb k
           (dict_get_default ResourceType_eqb k 0%Q acc + v)%Q acc.

Section Nodes.
Context {FT : FloatText}.

(** The three [if hasattr(...)] additions for one quantities object. *)
Definition accumulate (acc : dict ResourceType Q) (q : Requests)
  : result (dict ResourceType Q) :=
  a1 <- match cpu q with
        | Some s => v <- _parse_cpu_request s ;; Ok (dict_add CPU v acc)
        | None => Ok acc
        end ;;
  a2 <- match memory q with
        | Some s => v <- _parse_memory_request s ;; Ok (dict_add MEMORY v a1)
        | None => Ok a1
        end ;;
  match nvidia_com_gpu q with
  | Some s => v <- py_float s ;; Ok (dict_add GPU v a2)
  | None => Ok a2
  end.

(** The body of [for node in nodes.items]. *)
Definition node_step (acc : dict ResourceType Q * dict ResourceType Q)
           (node : V1Node)
  : result (dict ResourceType Q * dict ResourceType Q) :=
  let '(total_resources, allocated_resources) := acc in
  t <- match status_capacity node with
       | Some capacity => accumulate total_resources capacity
       | None => Ok total_resources
       end ;;
  a <- match status_allocatable node with
       | Some allocatable => accumulate allocated_resources allocatable
       | None => Ok allocated_resources
       end ;;
  Ok (t, a).

Fixpoint node_loop (nodes : list V1Node)
         (acc : dict ResourceType Q * dict ResourceType Q)
  : result (dict ResourceType Q * dict ResourceType Q) :=
  match nodes with
  | [] => Ok acc
  | node :: rest => acc' <- node_step acc node ;; node_loop rest acc'
  end.

(** [get_cluster_info]; [listing = None] when [list_node] raises
    [ApiException], which the function answers with [None].  A
    [ValueError] of a parser is not caught here. *)
Definition get_cluster_info (listing : option (list V1Node))
  : result (option ClusterInfo) :=
  match listing with
  | None => Ok None
  | Some nodes =>
      acc <- node_loop nodes (zero_resources, zero_resources) ;;
      Ok (Some {| total_resources := fst acc;
                  allocated_resources := snd acc |})
  end.

(** [calculate_job_priorities] with its two observations: the cluster is
    read only when some job is pending. *)
Definition observe_and_rank (drf_scheduler : DRFScheduler) (clock : nat -> Z)
           (job_listing : option (list V1Job))
           (node_listing : option (list V1Node))
  : result (list (JobInfo * Q)) :=
  match get_pending_jobs job_listing with
  | [] => Ok []
  | (_ :: _) as pending_jobs =>
      cluster_info <- get_cluster_info node_listing ;;
      Ok (calculate_job_priorities drf_scheduler clock pending_jobs cluster_info)
  end.

Context {API : CustomObjectsApi}.

(** [update_kueue_priorities]; [kueue_manager] tells whether the
    controller holds a manager.  The answer is the report of the
    updater, when it ran. *)
Definition update_kueue_priorities (kueue_manager : bool)
           (job_priorities : list (JobInfo * Q)) : option UpdateReport :=
  if kueue_manager then Some (update_all_job_priorities job_priorities)
  else None.

(** One pass of the [while self.running] loop of [DRFController.start],
    up to its sleep: the report of the updater when it ran, [None] when
    the pass ended without it (nothing ranked, no manager, or an
    exception caught by the loop). *)
Definition tick (drf_scheduler : DRFScheduler) (clock : nat -> Z)
           (kueue_manager : bool)
           (job_listing : option (list V1Job))
           (node_listing : option (list V1Node)) : option UpdateReport :=
  match observe_and_rank drf_scheduler clock job_listing node_listing with
  | Ok ((_ :: _) as job_priorities) =>
      update_kueue_priorities kueue_manager job_priorities
  | Ok [] => None
  | Raise _ => None
  end.
End Nodes.

End Observer.

(* ================================================================== *)
(** * kueue_integration.py: queue status *)
(* ================================================================== *)

Module QueueStatus.
Import Py Controller Kueue.
Local Open Scope string_scope.

(** A condition of a workload: [condition.get('type')] and
    [condition.get('status')]. *)
Record Condition := {
  condition_type : option string;
  condition_status : option string
}.

(** A workload with the fields that the status queries read; a missing
    key is [None]. *)
Record WorkloadItem := {
  item_metadata : Workload;
  spec_queueName : option string;
  item_priority : option Z;
  item_conditions : list Condition
}.

Definition opt_eqb (o : option string) (s : string) : bool :=
  match o with
  | Some v => String.eqb v s
  | None => false
  end.

(** The loop over [conditions]: [is_pending] turns false at the first
    condition Admitted = True, where the loop breaks. *)
Fixpoint scan_conditions (conditions : list Condition) (is_pending : bool)
  : bool :=
  match conditions with
  | [] => is_pending
  | condition :: rest =>
      if opt_eqb (condition_type condition) "Admitted"
         && opt_eqb (condition_status condition) "True"
      then false
      else scan_conditions rest is_pending
  end.

Fixpoint pending_loop (items : list WorkloadItem) : list WorkloadItem :=
  match items with
  | [] => []
  | workload :: rest =>
      if scan_conditions (item_conditions workload) true
      then workload :: pending_loop rest
      else pending_loop rest
  end.

(** [get_pending_workloads]; [listing = None] when the call raises
    [ApiException]. *)
Definition get_pending_workloads (listing : option (list WorkloadItem))
  : list WorkloadItem :=
  match listing with
  | Some items => pending_loop items
  | None => []
  end.

(** An entry of [get_pending_workloads_info]. *)
Record WorkloadInfo := {
  info_name : string;
  info_namespace : string;
  info_queue : option string;
  info_priority : Z;
  info_status : list Condition
}.

Definition get_pending_workloads_info (listing : option (list WorkloadItem))
  : list WorkloadInfo :=
  map (fun workload =>
         {| info_name := workload_name (item_metadata workload);
            info_namespace := workload_namespace (item_metadata workload);
            info_queue := spec_queueName workload;
            info_priority :=
              match item_priority workload with Some p => p | None => 0%Z end;
            info_status := item_conditions workload |})
      (get_pending_workloads listing).

End QueueStatus.

(* ================================================================== *)
(** * Vocabulary of the specification

    The notions the specification uses to describe the code, written
    from its words. *)
(* ================================================================== *)

Module Spec.
Import Py Controller Kueue Observer.
Local Open Scope Q_scope.

(** classWeight(URGENT) = 0, classWeight(NORMAL) = 1000. *)
Definition classWeight (p : JobPriority) : Q :=
  match p with
  | URGENT => 0
  | NORMAL => 1000
  end.

(** Seconds elapsed at [now] since the job was created. *)
Definition age_seconds (now : Z) (job : JobInfo) : Q :=
  inject_Z (now - creation_timestamp job) / 1000000.

(** J.request[k]; a missing key is zero. *)
Definition request (job : JobInfo) (k : ResourceType) : Q :=
  dict_get_default ResourceType_eqb k 0 (resources job).

(** C.totals[k]; a missing key is zero. *)
Definition total (cluster : ClusterInfo) (k : ResourceType) : Q :=
  dict_get_default ResourceType_eqb k 0 (total_resources cluster).

(** The kinds that enter the dominant share: C.totals[k] > 0. *)
Definition considered (cluster : ClusterInfo) (k : ResourceType) : bool :=
  Qlt_bool 0 (total cluster k).

(** The request vector cut down to the considered kinds. *)
Definition restrict_request (cluster : ClusterInfo) (job : JobInfo) : JobInfo :=
  {| name := name job;
     namespace := namespace job;
     priority := priority job;
     creation_timestamp := creation_timestamp job;
     resources := filter (fun item => considered cluster (fst item))
                         (resources job);
     gang_scheduling := gang_scheduling job;
     gang_id := gang_id job |}.

(** Every requested amount is non-negative (ResourceVector). *)
Definition nonneg_request (job : JobInfo) : bool :=
  forallb (fun item => Qle_bool 0 (snd item)) (resources job).

(** The request vector is a mapping: one entry per kind. *)
Definition wf_request (job : JobInfo) : bool :=
  unique_keys ResourceType_eqb (resources job) && nonneg_request job.

(** A gang job in the sense of the filter: gang.enabled with a group
    id that the grouping loop accepts. *)
Definition grouped (job : JobInfo) : bool :=
  gang_scheduling job && truthy_opt_str (gang_id job).

Definition all_grouped (groups : dict string (list JobInfo)) : Prop :=
  forall g members job,
    In (g, members) groups -> In job members -> grouped job = true.

Definition in_some_group (job : JobInfo)
           (groups : dict string (list JobInfo)) : Prop :=
  exists g members, In (g, members) groups /\ In job members.

(** The requests object that the observer reads: the one of the first
    container, when the job has it. *)
Definition first_requests (job : V1Job) : option Requests :=
  match spec_containers job with
  | container :: _ =>
      match container_resources container with
      | Some rr => requests rr
      | None => None
      end
  | [] => None
  end.

(** One of the quantity strings of [rq] is rejected by its parser. *)
Definition rejected_field {FT : FloatText} (rq : Requests) : Prop :=
  (exists s, cpu rq = Some s /\ _parse_cpu_request s = Raise ValueError)
  \/ (exists s, memory rq = Some s
                /\ _parse_memory_request s = Raise ValueError)
  \/ (exists s, nvidia_com_gpu rq = Some s /\ py_float s = Raise ValueError).

(** [n] is an integer nearest to [x]. *)
Definition nearest_integer (x : Q) (n : Z) : Prop :=
  Qabs (inject_Z n - x) <= 1 # 2.

(** [n] is [x] cut toward zero: its magnitude is the integer part of the
    magnitude of [x] and it is not of the opposite sign. *)
Definition toward_zero (x : Q) (n : Z) : Prop :=
  Qabs (inject_Z n) <= Qabs x
  /\ Qabs x < Qabs (inject_Z n) + 1
  /\ 0 <= inject_Z n * x.

(** The score carried by an item of a batch. *)
Definition score_of (item : nat * (JobInfo * Q)) : Q := snd (snd item).

(** The [k]-th run of ten of a ranked list, numbered from rank
    [10 k + 1]. *)
Definition chunk (A : Type) (l : list A) (k : nat) : list (nat * A) :=
  enumerate (k * 10 + 1)%nat (firstn 10 (skipn (k * 10)%nat l)).

(** Ranking vocabulary, over any list with a score read by [key]. *)
Section Ranking.
Variable A : Type.
Variable key : A -> Q.

(** Ascending by score. *)
Definition ascending (l : list A) : Prop :=
  StronglySorted (fun a b => key a <= key b) l.

(** Strictly ascending by score. *)
Definition strictly_ascending (l : list A) : Prop :=
  StronglySorted (fun a b => key a < key b) l.

(** The items of [l] whose score equals [q], in the order of [l]. *)
Definition tied_at (q : Q) (l : list A) : list A :=
  filter (fun a => Qeq_bool (key a) q) l.

(** Pairwise distinct scores. *)
Fixpoint distinct_keys (l : list A) : bool :=
  match l with
  | [] => true
  | x :: l' =>
      forallb (fun y => negb (Qeq_bool (key x) (key y))) l' && distinct_keys l'
  end.
(** The score in lowest terms: equal as numbers, equal as terms. *)
Definition canon (a : A) : Q := Qred (key a).
End Ranking.

(** Every request for a considered kind is within the cluster total. *)
Definition within_capacity (cluster : ClusterInfo) (job : JobInfo) : bool :=
  forallb (fun item => negb (considered cluster (fst item))
                       || Qle_bool (snd item) (total cluster (fst item)))
          (resources job).

(** The job is a gang job of gang [g]. *)
Definition in_gang (g : string) (job : JobInfo) : bool :=
  grouped job &&
  match gang_id job with
  | Some g' => String.eqb g' g
  | None => false
  end.

(** The jobs of gang [g] among [jobs], in their order. *)
Definition members_of (g : string) (jobs : list JobInfo) : list JobInfo :=
  filter (in_gang g) jobs.

(** The ids of the gangs that occur among [jobs], each once, in the
    order of their first occurrence. *)
Definition ids_step (seen : list string) (job : JobInfo) : list string :=
  match gang_id job with
  | Some g =>
      if grouped job && negb (existsb (String.eqb g) seen)
      then seen ++ [g]
      else seen
  | None => seen
  end.

Definition gang_ids (jobs : list JobInfo) : list string :=
  fold_left ids_step jobs [].

(** The table of the gangs of [jobs]: each id with its members. *)
Definition groups_of (jobs : list JobInfo) : dict string (list JobInfo) :=
  map (fun g => (g, members_of g jobs)) (gang_ids jobs).

(** The amount that a resource dictionary holds for [k]; a missing key
    is zero. *)
Definition value_at (d : dict ResourceType Q) (k : ResourceType) : Q :=
  dict_get_default ResourceType_eqb k 0 d.

(** C.allocatable[k]; a missing key is zero. *)
Definition allocatable (cluster : ClusterInfo) (k : ResourceType) : Q :=
  dict_get_default ResourceType_eqb k 0 (allocated_resources cluster).

(** What a quantities object gives for kind [k]: the parsed value of
    its attribute, 0 when the attribute is missing. *)
Definition quantity {FT : FloatText} (q : Requests) (k : ResourceType) : Q :=
  let value (r : result Q) := match r with Ok v => v | Raise _ => 0 end in
  match k with
  | CPU => match cpu q with
           | Some s => value (_parse_cpu_request s)
           | None => 0
           end
  | MEMORY => match memory q with
              | Some s => value (_parse_memory_request s)
              | None => 0
              end
  | GPU => match nvidia_com_gpu q with
           | Some s => value (py_float s)
           | None => 0
           end
  end.

Definition opt_quantity {FT : FloatText} (q : option Requests)
           (k : ResourceType) : Q :=
  match q with
  | Some q' => quantity q' k
  | None => 0
  end.

(** The sum of [f] over the nodes. *)
Definition sum_nodes (f : V1Node -> Q) (nodes : list V1Node) : Q :=
  fold_right (fun node acc => f node + acc) 0 nodes.

(** The accumulators keep the three keys they start with. *)
Definition three_keys (d : dict ResourceType Q) : Prop :=
  map fst d = [CPU; MEMORY; GPU].

(** A node one of whose quantity strings is rejected by its parser. *)
Definition bad_node {FT : FloatText} (node : V1Node) : Prop :=
  (exists q, status_capacity node = Some q /\ rejected_field q)
  \/ (exists q, status_allocatable node = Some q /\ rejected_field q).

(** The condition that ends the pending state of a workload:
    type Admitted with status True. *)
Definition is_admitted (c : QueueStatus.Condition) : bool :=
  QueueStatus.opt_eqb (QueueStatus.condition_type c) "Admitted"
  && QueueStatus.opt_eqb (QueueStatus.condition_status c) "True".

End Spec.

(* ================================================================== *)
(** * Sample inputs *)
(* ================================================================== *)

Module Samples.
Import Py Controller Observer QueueStatus.
Local Open Scope string_scope.

(** Cluster of scenario 1: CPU 32, GPU 8, MEM 131072 MiB. *)
Definition cluster1 : ClusterInfo :=
  {| total_resources := [(CPU, 32%Q); (GPU, 8%Q); (MEMORY, 131072%Q)];
     allocated_resources := [(CPU, 16%Q); (GPU, 4%Q); (MEMORY, 65536%Q)] |}.

(** Cluster of scenario 5: no accelerator. *)
Definition cluster5 : ClusterInfo :=
  {| total_resources := [(CPU, 32%Q); (GPU, 0%Q)];
     allocated_resources := [] |}.

Definition plain_job (n : string) (p : JobPriority) (created : Z)
           (req : dict ResourceType Q) : JobInfo :=
  {| name := n; namespace := "default"; priority := p;
     creation_timestamp := created; resources := req;
     gang_scheduling := false; gang_id := None |}.

(** Job A of scenario 1, created at instant 0. *)
Definition jobA : JobInfo :=
  plain_job "A" URGENT 0 [(CPU, 4%Q); (GPU, 2%Q); (MEMORY, 8192%Q)].

(** A NORMAL job whose creation instant is 10 s after instant 0. *)
Definition job_future : JobInfo :=
  plain_job "skewed" NORMAL 10000000 [(CPU, 4%Q)].

(** Job of scenario 5: GPU 4, CPU 2. *)
Definition job5 : JobInfo :=
  plain_job "s5" NORMAL 0 [(GPU, 4%Q); (CPU, 2%Q)].

(** Scenario 4: [g1_a] and [g1_b] are the two members of gang g1,
    [h1] is a singleton. *)
Definition gang_job (n : string) (gid : option string) : JobInfo :=
  {| name := n; namespace := "default"; priority := NORMAL;
     creation_timestamp := 0; resources := [(CPU, 4%Q)];
     gang_scheduling := true; gang_id := gid |}.

Definition g1_a : JobInfo := gang_job "g1-a" (Some "g1").
Definition g1_b : JobInfo := gang_job "g1-b" (Some "g1").
Definition h1 : JobInfo := plain_job "h1" NORMAL 0 [(CPU, 4%Q)].

(** A job annotated for gang scheduling that carries no gang id. *)
Definition gang_no_id : JobInfo := gang_job "orphan" None.

(** Two NORMAL jobs that differ in their name only, and a clock that
    reads instant 0 at every call. *)
Definition job_a : JobInfo := plain_job "a" NORMAL 0 [(CPU, 4%Q)].
Definition job_b : JobInfo := plain_job "b" NORMAL 0 [(CPU, 4%Q)].
Definition clock0 : nat -> Z := fun _ => 0%Z.

(** A pending job whose first container requests 2 CPUs and the given
    memory quantity. *)
Definition k8s_job (n : string) (mem : string) : V1Job :=
  {| metadata_name := n;
     metadata_namespace := "default";
     metadata_creation_timestamp := 0;
     metadata_annotations := None;
     spec_containers :=
       [ {| container_resources :=
              Some {| requests :=
                        Some {| cpu := Some "2"; memory := Some mem;
                                nvidia_com_gpu := None |} |} |} ];
     status_phase := "Pending";
     status_conditions := [] |}.

Definition job_2Gi : V1Job := k8s_job "fits" "2Gi".
Definition job_lots : V1Job := k8s_job "odd" "lots".

(** A queue with one workload per job name below, whose patches all go
    through. *)
Definition queue_ok : Kueue.CustomObjectsApi :=
  {| Kueue.list_cluster_custom_object :=
       Some [ {| Kueue.workload_name := "wl-a-x7k2";
                 Kueue.workload_namespace := "default" |};
              {| Kueue.workload_name := "wl-b-m3p9";
                 Kueue.workload_namespace := "default" |} ];
     Kueue.patch_namespaced_custom_object := fun _ => true |}.

Definition a_workload : Kueue.Workload :=
  {| Kueue.workload_name := "wl-a-x7k2";
     Kueue.workload_namespace := "default" |}.

(** Twenty-five scored jobs, from the highest score (25) down to the
    lowest (1). *)
Definition scored25 : list (JobInfo * Q) :=
  map (fun k => (plain_job (str_of_nat k) NORMAL 0 [],
                 inject_Z (Z.of_nat (25 - k))))
      (seq 0 25).

(** Two scored jobs with different scores. *)
Definition scored_ab : list (JobInfo * Q) :=
  [(job_a, 1000 + (1 # 8))%Q; (job_b, 999 + (1 # 8))%Q].

(** Two nodes: one reporting CPU, memory and accelerators, one
    reporting CPU and memory only and no allocatable amounts. *)
Definition node_gpu : V1Node :=
  {| status_capacity :=
       Some {| cpu := Some "16"; memory := Some "64Gi";
               nvidia_com_gpu := Some "4" |};
     status_allocatable :=
       Some {| cpu := Some "15500m"; memory := Some "60Gi";
               nvidia_com_gpu := Some "4" |} |}.

Definition node_cpu : V1Node :=
  {| status_capacity :=
       Some {| cpu := Some "16"; memory := Some "65536Mi";
               nvidia_com_gpu := None |};
     status_allocatable := None |}.

(** A node whose memory capacity uses a decimal suffix. *)
Definition node_odd : V1Node :=
  {| status_capacity :=
       Some {| cpu := Some "8"; memory := Some "32G";
               nvidia_com_gpu := None |};
     status_allocatable := None |}.

(** Workloads of the queue: one admitted, one waiting, one without
    conditions. *)
Definition item_admitted : WorkloadItem :=
  {| item_metadata := {| Kueue.workload_name := "wl-a-x7k2";
                         Kueue.workload_namespace := "default" |};
     spec_queueName := Some "default";
     item_priority := Some 250%Z;
     item_conditions :=
       [ {| condition_type := Some "QuotaReserved";
            condition_status := Some "True" |};
         {| condition_type := Some "Admitted";
            condition_status := Some "True" |} ] |}.

Definition item_waiting : WorkloadItem :=
  {| item_metadata := {| Kueue.workload_name := "wl-b-m3p9";
                         Kueue.workload_namespace := "default" |};
     spec_queueName := Some "default";
     item_priority := None;
     item_conditions :=
       [ {| condition_type := Some "Admitted";
            condition_status := Some "False" |} ] |}.

End Samples.

(* ================================================================== *)
(** * Properties of the Python primitives *)
(* ================================================================== *)

Module PyFacts.
Import Py.

Lemma Qlt_bool_iff (x y : Q) : Qlt_bool x y = true <-> x < y.
Proof.
  unfold Qlt_bool. rewrite negb_true_iff. split; intro H.
  - apply Qnot_le_lt. intro Hle. apply Qle_bool_iff in Hle. congruence.
  - destruct (Qle_bool y x) eqn:E; [|reflexivity].
    apply Qle_bool_iff in E. exfalso. exact (Qlt_not_le _ _ H E).
Qed.

Lemma Qlt_bool_false (x y : Q) : Qlt_bool x y = false <-> y <= x.
Proof.
  unfold Qlt_bool. rewrite negb_false_iff. apply Qle_bool_iff.
Qed.

Lemma Qle_bool_false (x y : Q) : Qle_bool x y = false -> y < x.
Proof.
  intro H. apply Qnot_le_lt. intro Hle. apply Qle_bool_iff in Hle. congruence.
Qed.

(** ** [max] *)

Lemma max_list_step (m x : Q) (rest : list Q) :
  max_list m (x :: rest) = max_list (if Qlt_bool m x then x else m) rest.
Proof. reflexivity. Qed.

Lemma max_list_upper (rest : list Q) :
  forall first,
    first <= max_list first rest /\
    Forall (fun x => x <= max_list first rest) rest.
Proof.
  induction rest as [|x rest IH]; intro first.
  - split; [apply Qle_refl | constructor].
  - rewrite max_list_step.
    destruct (IH (if Qlt_bool first x then x else first)) as [Hm Hall].
    destruct (Qlt_bool first x) eqn:E.
    + apply Qlt_bool_iff in E. split.
      * apply Qle_trans with x; [apply Qlt_le_weak; exact E | exact Hm].
      * constructor; assumption.
    + apply Qlt_bool_false in E. split; [exact Hm|].
      constructor; [apply Qle_trans with first; assumption | exact Hall].
Qed.

Lemma max_list_in (rest : list Q) :
  forall first, In (max_list first rest) (first :: rest).
Proof.
  induction rest as [|x rest IH]; intro first.
  - left. reflexivity.
  - rewrite max_list_step.
    destruct (IH (if Qlt_bool first x then x else first)) as [H | H].
    + destruct (Qlt_bool first x).
      * right. left. exact H.
      * left. exact H.
    + right. right. exact H.
Qed.

(** ** Dictionaries *)

Section DictFacts.
Variables (K V : Type) (keq : K -> K -> bool).
Hypothesis keq_eq : forall a b, keq a b = true <-> a = b.

Lemma dict_get_in (k : K) (v : V) (d : dict K V) :
  dict_get keq k d = Some v -> In (k, v) d.
Proof.
  induction d as [|[k' v'] rest IH]; simpl; [discriminate|].
  destruct (keq k k') eqn:E.
  - apply keq_eq in E. subst k'. intro H. injection H as ->. now left.
  - intro H. right. now apply IH.
Qed.

Lemma in_dict_contains (k : K) (v : V) (d : dict K V) :
  In (k, v) d -> dict_contains keq k d = true.
Proof.
  unfold dict_contains.
  induction d as [|[k' v'] rest IH]; simpl; [tauto|].
  intros [H | H].
  - injection H as -> ->.
    assert (E : keq k k = true) by now apply keq_eq.
    now rewrite E.
  - destruct (keq k k'); [reflexivity | now apply IH].
Qed.

Lemma in_dict_get (k : K) (v : V) (d : dict K V) :
  unique_keys keq d = true -> In (k, v) d -> dict_get keq k d = Some v.
Proof.
  induction d as [|[k' v'] rest IH]; simpl; [tauto|].
  rewrite andb_true_iff, negb_true_iff. intros [Hfresh Huniq] [H | H].
  - injection H as -> ->.
    assert (E : keq k k = true) by now apply keq_eq.
    now rewrite E.
  - destruct (keq k k') eqn:E.
    + apply keq_eq in E. subst k'.
      apply in_dict_contains in H. congruence.
    + now apply IH.
Qed.
End DictFacts.

End PyFacts.

(* ================================================================== *)
(** * DRF scorer *)
(* ================================================================== *)

Module ScorerFacts.
Import Py Controller Spec PyFacts.
Local Open Scope Q_scope.

Lemma ResourceType_eqb_eq (a b : ResourceType) :
  ResourceType_eqb a b = true <-> a = b.
Proof. destruct a, b; simpl; split; congruence. Qed.

Lemma total_seconds_age (now : Z) (job : JobInfo) :
  total_seconds (now - creation_timestamp job) == age_seconds now job.
Proof.
  unfold total_seconds, age_seconds.
  rewrite (Qmake_Qdiv (now - creation_timestamp job) 1000000).
  reflexivity.
Qed.

Lemma priority_weight_classWeight (p : JobPriority) :
  (if JobPriority_eqb p URGENT then 0 else 1000) = classWeight p.
Proof. destruct p; reflexivity. Qed.

Lemma score_unfold (self : DRFScheduler) (now : Z) (job : JobInfo)
      (cluster : ClusterInfo) :
  calculate_priority_score self now job cluster ==
    classWeight (priority job) + calculate_dominant_share job cluster
    - aging_alpha self * age_seconds now job.
Proof.
  unfold calculate_priority_score.
  rewrite priority_weight_classWeight, total_seconds_age.
  reflexivity.
Qed.

(** C1.  For a job of non-negative age the priority score is
    classWeight + dominantShare - alpha * age_seconds, with
    classWeight(URGENT) = 0, classWeight(NORMAL) = 1000 and alpha the
    constant given to the constructor, 0.1 when none is given. *)
Theorem C1_priority_score_formula
        (alpha : option Q) (now : Z) (job : JobInfo) (cluster : ClusterInfo) :
  0 <= age_seconds now job ->
  let self := DRFScheduler_init alpha in
  calculate_priority_score self now job cluster ==
    classWeight (priority job) + calculate_dominant_share job cluster
    - aging_alpha self * age_seconds now job
  /\ aging_alpha self == match alpha with Some a => a | None => 0.1 end
  /\ classWeight URGENT == 0
  /\ classWeight NORMAL == 1000.
Proof.
  intros _ self. split; [apply score_unfold|].
  split; [destruct alpha; reflexivity|].
  split; reflexivity.
Qed.

Lemma C1_priority_score_formula_witness :
  0 <= age_seconds 5000000 Samples.jobA /\
  calculate_priority_score (DRFScheduler_init None) 5000000
                           Samples.jobA Samples.cluster1
    == 0 + (1 # 4) - (1 # 10) * 5.
Proof.
  split; [vm_compute; discriminate|].
  destruct (@C1_priority_score_formula None 5000000 Samples.jobA
              Samples.cluster1) as [H _].
  - vm_compute. discriminate.
  - rewrite H. vm_compute. reflexivity.
Defined.

(** ** Dominant share *)

Lemma share_of_considered (cluster : ClusterInfo) (k : ResourceType) (r : Q) :
  share_of cluster (k, r) =
    if considered cluster k then Some (r / total cluster k) else None.
Proof.
  unfold share_of, considered, total, dict_get_default, resource_get.
  destruct (dict_get ResourceType_eqb k (total_resources cluster)) as [t|];
    reflexivity.
Qed.

Lemma dominant_shares_cons (cluster : ClusterInfo) (k : ResourceType)
      (r : Q) (rest : dict ResourceType Q) :
  dominant_shares cluster ((k, r) :: rest) =
    if considered cluster k
    then r / total cluster k :: dominant_shares cluster rest
    else dominant_shares cluster rest.
Proof.
  change (dominant_shares cluster ((k, r) :: rest))
    with (match share_of cluster (k, r) with
          | Some share => share :: dominant_shares cluster rest
          | None => dominant_shares cluster rest
          end).
  rewrite share_of_considered.
  destruct (considered cluster k); reflexivity.
Qed.

Lemma dominant_shares_in (cluster : ClusterInfo) (items : dict ResourceType Q)
      (s : Q) :
  In s (dominant_shares cluster items) <->
  exists k r, In (k, r) items /\ considered cluster k = true
              /\ s = r / total cluster k.
Proof.
  induction items as [|[k r] rest IH].
  - simpl. split; [tauto | intros (k & r & [] & _)].
  - rewrite dominant_shares_cons.
    destruct (considered cluster k) eqn:Ek; simpl; rewrite IH; split.
    + intros [<- | (k' & r' & Hin & Hc & Hs)].
      * exists k, r. auto.
      * exists k', r'. auto.
    + intros (k' & r' & [Heq | Hin] & Hc & Hs).
      * injection Heq as <- <-. left. now symmetry.
      * right. exists k', r'. auto.
    + intros (k' & r' & Hin & Hc & Hs). exists k', r'. auto.
    + intros (k' & r' & [Heq | Hin] & Hc & Hs).
      * injection Heq as <- <-. congruence.
      * exists k', r'. auto.
Qed.

Lemma dominant_shares_restrict (cluster : ClusterInfo)
      (items : dict ResourceType Q) :
  dominant_shares cluster
    (filter (fun item => considered cluster (fst item)) items)
  = dominant_shares cluster items.
Proof.
  induction items as [|[k r] rest IH]; [reflexivity|].
  rewrite dominant_shares_cons. cbn [filter fst].
  destruct (considered cluster k) eqn:Ek.
  - rewrite dominant_shares_cons, Ek, IH. reflexivity.
  - exact IH.
Qed.

Lemma request_in (job : JobInfo) (k : ResourceType) (r : Q) :
  unique_keys ResourceType_eqb (resources job) = true ->
  In (k, r) (resources job) -> request job k = r.
Proof.
  intros Hu Hin. unfold request, dict_get_default.
  now rewrite (in_dict_get _ ResourceType_eqb_eq _ _ _ Hu Hin).
Qed.

Lemma request_cases (job : JobInfo) (k : ResourceType) :
  In (k, request job k) (resources job) \/ request job k = 0.
Proof.
  unfold request, dict_get_default.
  destruct (dict_get ResourceType_eqb k (resources job)) as [r|] eqn:E.
  - left. exact (dict_get_in _ ResourceType_eqb_eq _ _ E).
  - right. reflexivity.
Qed.

Lemma nonneg_request_in (job : JobInfo) (k : ResourceType) (r : Q) :
  nonneg_request job = true -> In (k, r) (resources job) -> 0 <= r.
Proof.
  unfold nonneg_request. rewrite forallb_forall. intros H Hin.
  apply Qle_bool_iff. exact (H (k, r) Hin).
Qed.

Lemma considered_pos (cluster : ClusterInfo) (k : ResourceType) :
  considered cluster k = true -> 0 < total cluster k.
Proof. apply Qlt_bool_iff. Qed.

Lemma share_nonneg (r t : Q) : 0 <= r -> 0 < t -> 0 <= r / t.
Proof.
  intros Hr Ht. unfold Qdiv.
  apply Qmult_le_0_compat; [exact Hr|].
  apply Qlt_le_weak, Qinv_lt_0_compat, Ht.
Qed.

Lemma zero_share (t : Q) : 0 / t == 0.
Proof. unfold Qdiv. apply Qmult_0_l. Qed.

Lemma considered_dec (cluster : ClusterInfo) :
  (exists k, considered cluster k = true)
  \/ (forall k, considered cluster k = false).
Proof.
  destruct (considered cluster CPU) eqn:E1; [left; now exists CPU|].
  destruct (considered cluster GPU) eqn:E2; [left; now exists GPU|].
  destruct (considered cluster MEMORY) eqn:E3; [left; now exists MEMORY|].
  right. intros []; assumption.
Qed.

(** C2.  The dominant share is the largest request[k] / totals[k] over
    the kinds k with totals[k] > 0: it bounds each of these ratios and
    is one of them, kinds whose total is zero or absent do not enter
    it, and it is 0 when no kind is considered. *)
Theorem C2_dominant_share_is_max (job : JobInfo) (cluster : ClusterInfo) :
  wf_request job = true ->
  let d := calculate_dominant_share job cluster in
  (forall k, considered cluster k = true ->
             request job k / total cluster k <= d)
  /\ ((exists k, considered cluster k = true
                 /\ d == request job k / total cluster k)
      \/ ((forall k, considered cluster k = false) /\ d == 0))
  /\ d = calculate_dominant_share (restrict_request cluster job) cluster.
Proof.
  intros Hwf d. unfold wf_request in Hwf.
  apply andb_true_iff in Hwf. destruct Hwf as [Hu Hn].
  assert (Hrestrict :
            d = calculate_dominant_share (restrict_request cluster job) cluster).
  { unfold d, calculate_dominant_share, restrict_request. cbn [resources].
    now rewrite dominant_shares_restrict. }
  split; [|split; [|exact Hrestrict]]; clear Hrestrict;
    unfold d, calculate_dominant_share;
    destruct (dominant_shares cluster (resources job)) as [|first rest] eqn:E.
  - (* no share was appended *)
    intros k Hk. destruct (request_cases job k) as [Hin | H0].
    + assert (Hs : In (request job k / total cluster k)
                      (dominant_shares cluster (resources job))).
      { apply dominant_shares_in. exists k, (request job k). auto. }
      rewrite E in Hs. destruct Hs.
    + rewrite H0, zero_share. apply Qle_refl.
  - intros k Hk. destruct (max_list_upper rest first) as [Hfirst Hrest].
    assert (Hm : In (max_list first rest)
                    (dominant_shares cluster (resources job))).
    { rewrite E. apply max_list_in. }
    apply dominant_shares_in in Hm. destruct Hm as (km & rm & Hin & Hc & Hm).
    destruct (request_cases job k) as [Hk_in | H0].
    + assert (Hs : In (request job k / total cluster k) (first :: rest)).
      { rewrite <- E. apply dominant_shares_in. exists k, (request job k). auto. }
      destruct Hs as [<- | Hs]; [exact Hfirst|].
      rewrite Forall_forall in Hrest. exact (Hrest _ Hs).
    + rewrite H0, zero_share, Hm.
      apply share_nonneg; [exact (nonneg_request_in _ _ _ Hn Hin)|].
      now apply considered_pos.
  - destruct (considered_dec cluster) as [[k Hk] | Hnone].
    + left. exists k. split; [exact Hk|].
      destruct (request_cases job k) as [Hin | H0].
      * assert (Hs : In (request job k / total cluster k)
                        (dominant_shares cluster (resources job))).
        { apply dominant_shares_in. exists k, (request job k). auto. }
        rewrite E in Hs. destruct Hs.
      * rewrite H0, zero_share. reflexivity.
    + right. split; [exact Hnone | reflexivity].
  - left.
    assert (Hm : In (max_list first rest)
                    (dominant_shares cluster (resources job))).
    { rewrite E. apply max_list_in. }
    apply dominant_shares_in in Hm. destruct Hm as (km & rm & Hin & Hc & Hm).
    exists km. split; [exact Hc|].
    rewrite (request_in _ _ _ Hu Hin), Hm. reflexivity.
Qed.

Lemma C2_dominant_share_is_max_witness :
  wf_request Samples.job5 = true
  /\ calculate_dominant_share Samples.job5 Samples.cluster5 == 2 / 32
  /\ request Samples.job5 CPU / total Samples.cluster5 CPU
       <= calculate_dominant_share Samples.job5 Samples.cluster5.
Proof.
  split; [reflexivity|]. split; [vm_compute; reflexivity|].
  destruct (@C2_dominant_share_is_max Samples.job5 Samples.cluster5)
    as [Hub _]; [reflexivity|].
  apply Hub. reflexivity.
Defined.

(** ** Creation instant in the future *)

Lemma age_negative (now : Z) (job : JobInfo) :
  (now < creation_timestamp job)%Z -> age_seconds now job < 0.
Proof.
  intro H. unfold age_seconds, Qdiv, Qlt. simpl. lia.
Qed.

(** C5, as the code has it.  When the creation instant of a job lies
    after the current time, the aging term alpha * age_seconds is used
    unclamped: the score is classWeight + dominantShare plus alpha
    times the (positive) time until creation, which for alpha > 0 is
    strictly more than classWeight + dominantShare. *)
Theorem C5_future_creation_raises_score
        (self : DRFScheduler) (now : Z) (job : JobInfo) (cluster : ClusterInfo) :
  (now < creation_timestamp job)%Z ->
  0 < aging_alpha self ->
  calculate_priority_score self now job cluster ==
    classWeight (priority job) + calculate_dominant_share job cluster
    + aging_alpha self * (- age_seconds now job)
  /\ classWeight (priority job) + calculate_dominant_share job cluster
     < calculate_priority_score self now job cluster.
Proof.
  intros Hfuture Halpha.
  pose proof (@age_negative now job Hfuture) as Hage.
  pose proof (score_unfold self now job cluster) as Hscore.
  assert (Hpos : 0 < aging_alpha self * (- age_seconds now job)).
  { apply Qmult_lt_0_compat; [exact Halpha | lra]. }
  assert (Hneg : aging_alpha self * (- age_seconds now job)
                 == - (aging_alpha self * age_seconds now job)) by ring.
  split.
  - rewrite Hscore, Hneg. ring.
  - rewrite Hscore. lra.
Qed.

Lemma C5_future_creation_raises_score_witness :
  (0 < creation_timestamp Samples.job_future)%Z
  /\ 0 < aging_alpha (DRFScheduler_init None)
  /\ 1000 + (1 # 8)
     < calculate_priority_score (DRFScheduler_init None) 0
                                Samples.job_future Samples.cluster1.
Proof.
  split; [reflexivity|]. split; [reflexivity|].
  destruct (@C5_future_creation_raises_score (DRFScheduler_init None) 0
              Samples.job_future Samples.cluster1) as [_ H];
    [reflexivity | reflexivity |].
  eapply Qle_lt_trans; [|exact H]. vm_compute. discriminate.
Defined.

(** C5, as stated, fails: with alpha = 0.1 and a NORMAL job created
    10 s after the current time, requesting 4 of 32 CPUs, the score is
    1001.125 and not classWeight + dominantShare = 1000.125. *)
Lemma C5_clamp_counterexample :
  (0 < creation_timestamp Samples.job_future)%Z
  /\ calculate_priority_score (DRFScheduler_init None) 0
                              Samples.job_future Samples.cluster1
     == 1001 + (1 # 8)
  /\ ~ calculate_priority_score (DRFScheduler_init None) 0
                                Samples.job_future Samples.cluster1
       == classWeight (priority Samples.job_future)
          + calculate_dominant_share Samples.job_future Samples.cluster1.
Proof.
  split; [reflexivity|]. split; [vm_compute; reflexivity|].
  vm_compute. discriminate.
Qed.

End ScorerFacts.

(* ================================================================== *)
(** * Gang filter *)
(* ================================================================== *)

Module GangFacts.
Import Py Controller Spec.

Lemma group_append_in (gid : string) (job : JobInfo)
      (groups : dict string (list JobInfo)) :
  forall g members j,
    In (g, members) (group_append gid job groups) -> In j members ->
    j = job \/ exists members', In (g, members') groups /\ In j members'.
Proof.
  induction groups as [|[g0 m0] rest IH]; intros g members j Hin Hj.
  - destruct Hin as [Heq | []]. injection Heq as <- <-.
    destruct Hj as [<- | []]. now left.
  - simpl in Hin. destruct (String.eqb gid g0).
    + destruct Hin as [Heq | Hin].
      * injection Heq as <- <-. apply in_app_or in Hj.
        destruct Hj as [Hj | [<- | []]]; [right | now left].
        exists m0. split; [now left | exact Hj].
      * right. exists members. split; [now right | exact Hj].
    + destruct Hin as [Heq | Hin].
      * injection Heq as <- <-. right. exists m0. split; [now left | exact Hj].
      * destruct (IH _ _ _ Hin Hj) as [-> | (m' & Hm' & Hj')]; [now left|].
        right. exists m'. split; [now right | exact Hj'].
Qed.

Lemma group_step_all_grouped (groups : dict string (list JobInfo))
      (job : JobInfo) :
  all_grouped groups -> all_grouped (group_step groups job).
Proof.
  intros Hall. unfold group_step.
  destruct (gang_id job) as [gid|] eqn:Egid; [|exact Hall].
  destruct (gang_scheduling job && truthy_opt_str (Some gid)) eqn:E;
    [|exact Hall].
  intros g members j Hin Hj.
  destruct (group_append_in _ _ _ _ _ _ Hin Hj) as [-> | (m' & Hm' & Hj')].
  - unfold grouped. now rewrite Egid.
  - exact (Hall _ _ _ Hm' Hj').
Qed.

Lemma fold_group_step_all_grouped (jobs : list JobInfo) :
  forall groups,
    all_grouped groups -> all_grouped (fold_left group_step jobs groups).
Proof.
  induction jobs as [|job jobs IH]; intros groups Hall; [exact Hall|].
  simpl. apply IH. now apply group_step_all_grouped.
Qed.

Lemma gang_groups_all_grouped (jobs : list JobInfo) :
  all_grouped (gang_groups jobs).
Proof.
  apply fold_group_step_all_grouped. intros g members job [].
Qed.

Lemma ready_gangs_in (groups : dict string (list JobInfo)) (job : JobInfo) :
  In job (ready_gangs groups) <->
  exists g members, In (g, members) groups /\ In job members.
Proof.
  induction groups as [|[g0 m0] rest IH]; simpl.
  - split; [tauto | intros (g & m & [] & _)].
  - assert (Hall : forallb JobInfo_bool m0 = true)
      by (apply forallb_forall; reflexivity).
    rewrite Hall, in_app_iff, IH. split.
    + intros [H | (g & m & Hin & Hj)].
      * exists g0, m0. split; [now left | exact H].
      * exists g, m. split; [now right | exact Hj].
    + intros (g & m & [Heq | Hin] & Hj).
      * injection Heq as <- <-. now left.
      * right. exists g, m. auto.
Qed.

(** C9.  A job marked for gang scheduling whose gang id is unset is in
    no gang group and is not among the singletons either, so it is
    absent from the output of the gang filter. *)
Theorem C9_gang_without_id_dropped (jobs : list JobInfo) (job : JobInfo) :
  gang_scheduling job = true ->
  gang_id job = None ->
  (forall g members, In (g, members) (gang_groups jobs) -> ~ In job members)
  /\ ~ In job (filter (fun j => negb (gang_scheduling j)) jobs)
  /\ ~ In job (handle_gang_scheduling jobs).
Proof.
  intros Hgang Hid.
  assert (Hnot : grouped job = false).
  { unfold grouped. rewrite Hid. simpl. apply andb_false_r. }
  assert (Hgroups : forall g members,
             In (g, members) (gang_groups jobs) -> ~ In job members).
  { intros g members Hin Hj.
    pose proof (@gang_groups_all_grouped jobs g members job Hin Hj).
    congruence. }
  assert (Hsingle : ~ In job (filter (fun j => negb (gang_scheduling j)) jobs)).
  { rewrite filter_In, Hgang. simpl. intros [_ H]. discriminate. }
  split; [exact Hgroups|]. split; [exact Hsingle|].
  unfold handle_gang_scheduling. rewrite in_app_iff, ready_gangs_in.
  intros [(g & members & Hin & Hj) | H].
  - exact (Hgroups g members Hin Hj).
  - exact (Hsingle H).
Qed.

Lemma C9_gang_without_id_dropped_witness :
  In Samples.gang_no_id [Samples.g1_a; Samples.gang_no_id; Samples.h1]
  /\ ~ In Samples.gang_no_id
         (handle_gang_scheduling
            [Samples.g1_a; Samples.gang_no_id; Samples.h1]).
Proof.
  split; [right; left; reflexivity|].
  apply (@C9_gang_without_id_dropped
           [Samples.g1_a; Samples.gang_no_id; Samples.h1] Samples.gang_no_id);
    reflexivity.
Defined.

(** ** Gang jobs are never held back *)

Lemma group_append_keeps (gid : string) (job j : JobInfo)
      (groups : dict string (list JobInfo)) :
  in_some_group j groups -> in_some_group j (group_append gid job groups).
Proof.
  intros (g & members & Hin & Hj).
  induction groups as [|[g0 m0] rest IH]; [destruct Hin|].
  simpl. destruct (String.eqb gid g0).
  - destruct Hin as [Heq | Hin].
    + injection Heq as <- <-. exists g0, (m0 ++ [job]).
      split; [now left | apply in_or_app; now left].
    + exists g, members. split; [now right | exact Hj].
  - destruct Hin as [Heq | Hin].
    + injection Heq as <- <-. exists g0, m0. split; [now left | exact Hj].
    + destruct (IH Hin) as (g' & m' & Hin' & Hj').
      exists g', m'. split; [now right | exact Hj'].
Qed.

Lemma group_append_adds (gid : string) (job : JobInfo)
      (groups : dict string (list JobInfo)) :
  in_some_group job (group_append gid job groups).
Proof.
  induction groups as [|[g0 m0] rest IH]; simpl.
  - exists gid, [job]. split; now left.
  - destruct (String.eqb gid g0).
    + exists g0, (m0 ++ [job]).
      split; [now left | apply in_or_app; right; now left].
    + destruct IH as (g' & m' & Hin' & Hj').
      exists g', m'. split; [now right | exact Hj'].
Qed.

Lemma group_step_keeps (groups : dict string (list JobInfo))
      (job j : JobInfo) :
  in_some_group j groups -> in_some_group j (group_step groups job).
Proof.
  intro H. unfold group_step.
  destruct (gang_id job) as [gid|]; [|exact H].
  destruct (gang_scheduling job && truthy_opt_str (Some gid)); [|exact H].
  now apply group_append_keeps.
Qed.

Lemma fold_group_step_keeps (jobs : list JobInfo) (j : JobInfo) :
  forall groups,
    in_some_group j groups ->
    in_some_group j (fold_left group_step jobs groups).
Proof.
  induction jobs as [|job jobs IH]; intros groups H; [exact H|].
  simpl. apply IH. now apply group_step_keeps.
Qed.

Lemma fold_group_step_adds (jobs : list JobInfo) (j : JobInfo) :
  In j jobs -> grouped j = true ->
  forall groups, in_some_group j (fold_left group_step jobs groups).
Proof.
  intros Hin Hg. induction jobs as [|job jobs IH]; [destruct Hin|].
  intros groups. simpl. destruct Hin as [-> | Hin]; [|now apply IH].
  apply fold_group_step_keeps. unfold group_step.
  unfold grouped in Hg. destruct (gang_id j) as [gid|] eqn:Egid.
  - rewrite Hg. apply group_append_adds.
  - rewrite andb_false_r in Hg. discriminate.
Qed.

(** Whatever else is pending, a gang job of the pending list is in the
    output of the filter. *)
Lemma gang_job_forwarded (jobs : list JobInfo) (job : JobInfo) :
  In job jobs -> grouped job = true -> In job (handle_gang_scheduling jobs).
Proof.
  intros Hin Hg. unfold handle_gang_scheduling.
  apply in_or_app. left. apply ready_gangs_in.
  exact (@fold_group_step_adds jobs job Hin Hg []).
Qed.

(** C3, at the pending set of scenario 4.  With g1-a pending and its
    sibling g1-b absent, the filter returns g1-a followed by h1: the
    member of the incomplete gang is forwarded. *)
Theorem C3_incomplete_gang_forwarded :
  handle_gang_scheduling [Samples.g1_a; Samples.h1]
    = [Samples.g1_a; Samples.h1]
  /\ ~ In Samples.g1_b [Samples.g1_a; Samples.h1]
  /\ gang_id Samples.g1_b = gang_id Samples.g1_a
  /\ In Samples.g1_a (handle_gang_scheduling [Samples.g1_a; Samples.h1]).
Proof.
  split; [reflexivity|]. split.
  - intros [H | [H | []]]; discriminate.
  - split; [reflexivity|]. left. reflexivity.
Qed.

End GangFacts.

(* ================================================================== *)
(** * Stable sorting by score *)
(* ================================================================== *)

Module SortFacts.
Import Py Spec PyFacts.
Local Open Scope Q_scope.

Section SortedBy.
Variable A : Type.
Variable key : A -> Q.

Lemma insert_by_perm (x : A) (l : list A) :
  Permutation (insert_by key x l) (x :: l).
Proof.
  induction l as [|y l IH]; simpl; [reflexivity|].
  destruct (Qle_bool (key x) (key y)); [reflexivity|].
  rewrite IH. apply perm_swap.
Qed.

Lemma sorted_by_perm (l : list A) : Permutation (sorted_by key l) l.
Proof.
  induction l as [|x l IH]; simpl; [reflexivity|].
  rewrite insert_by_perm. now constructor.
Qed.

Lemma sorted_by_length (l : list A) :
  List.length (sorted_by key l) = List.length l.
Proof. apply Permutation_length, sorted_by_perm. Qed.

Lemma insert_by_ascending (x : A) (l : list A) :
  ascending key l -> ascending key (insert_by key x l).
Proof.
  unfold ascending. induction l as [|y l IH]; intro Hs; simpl.
  - repeat constructor.
  - inversion Hs as [|y' l' Hsl Hall]; subst.
    destruct (Qle_bool (key x) (key y)) eqn:E.
    + apply Qle_bool_iff in E. constructor; [exact Hs|].
      constructor; [exact E|].
      rewrite Forall_forall in *. intros z Hz.
      apply Qle_trans with (key y); [exact E | now apply Hall].
    + apply Qle_bool_false in E. constructor; [now apply IH|].
      rewrite Forall_forall in *. intros z Hz.
      apply (Permutation_in _ (insert_by_perm x l)) in Hz.
      destruct Hz as [<- | Hz]; [now apply Qlt_le_weak | now apply Hall].
Qed.

Lemma sorted_by_ascending (l : list A) : ascending key (sorted_by key l).
Proof.
  induction l as [|x l IH]; simpl; [constructor|].
  now apply insert_by_ascending.
Qed.

(** Stability: an insertion does not move an item past one of equal
    score. *)
Lemma insert_by_tied (q : Q) (x : A) (l : list A) :
  tied_at key q (insert_by key x l) = tied_at key q (x :: l).
Proof.
  unfold tied_at. induction l as [|y l IH]; [reflexivity|].
  simpl. destruct (Qle_bool (key x) (key y)) eqn:E; [reflexivity|].
  apply Qle_bool_false in E. simpl in IH |- *. rewrite IH.
  destruct (Qeq_bool (key x) q) eqn:Ex; [|reflexivity].
  destruct (Qeq_bool (key y) q) eqn:Ey; [|reflexivity].
  apply Qeq_bool_iff in Ex, Ey. rewrite Ex, Ey in E.
  now apply Qlt_irrefl in E.
Qed.

Lemma sorted_by_tied (q : Q) (l : list A) :
  tied_at key q (sorted_by key l) = tied_at key q l.
Proof.
  induction l as [|x l IH]; [reflexivity|].
  simpl. rewrite insert_by_tied. unfold tied_at in *. simpl.
  now rewrite IH.
Qed.

(** ** Distinct scores leave one ranking *)

Lemma distinct_keys_NoDup (l : list A) :
  distinct_keys key l = true -> NoDup (map (canon key) l).
Proof.
  induction l as [|x l IH]; simpl; [constructor|].
  rewrite andb_true_iff, forallb_forall. intros [Hx Hl].
  constructor; [|now apply IH].
  rewrite in_map_iff. intros (y & Heq & Hy).
  specialize (Hx y Hy). rewrite negb_true_iff in Hx.
  apply Qeq_bool_neq in Hx. apply Hx. symmetry.
  now apply Qred_eq_iff.
Qed.

Lemma ascending_NoDup_strict (l : list A) :
  ascending key l -> NoDup (map (canon key) l) -> strictly_ascending key l.
Proof.
  unfold ascending, strictly_ascending.
  induction l as [|x l IH]; intros Hs Hn; [constructor|].
  inversion Hs as [|x' l' Hsl Hall]; subst.
  inversion Hn as [|x' l' Hnin Hnl]; subst.
  constructor; [now apply IH|].
  rewrite Forall_forall in *. intros y Hy.
  destruct (proj1 (Qle_lteq _ _) (Hall y Hy)) as [Hlt | Heq]; [exact Hlt|].
  exfalso. apply Hnin. apply in_map_iff. exists y. split; [|exact Hy].
  unfold canon. symmetry. now apply Qred_eq_iff.
Qed.

Lemma strictly_ascending_perm_eq (l1 : list A) :
  forall l2,
    strictly_ascending key l1 -> strictly_ascending key l2 ->
    Permutation l1 l2 -> l1 = l2.
Proof.
  unfold strictly_ascending.
  induction l1 as [|a t1 IH]; intros l2 H1 H2 Hp.
  - now apply Permutation_nil in Hp.
  - destruct l2 as [|b t2].
    + symmetry in Hp. now apply Permutation_nil in Hp.
    + inversion H1 as [|a' t1' Hs1 Hall1]; subst.
      inversion H2 as [|b' t2' Hs2 Hall2]; subst.
      rewrite Forall_forall in Hall1, Hall2.
      assert (Hab : a = b).
      { assert (Ha : In a (b :: t2))
          by (apply (Permutation_in _ Hp); now left).
        assert (Hb : In b (a :: t1))
          by (apply (Permutation_in _ (Permutation_sym Hp)); now left).
        destruct Ha as [Ha | Ha]; [now symmetry|].
        destruct Hb as [Hb | Hb]; [exact Hb|].
        exfalso. apply (Qlt_irrefl (key a)).
        apply Qlt_trans with (key b); [now apply Hall1 | now apply Hall2]. }
      subst b. f_equal. apply IH; try assumption.
      now apply Permutation_cons_inv with a.
Qed.

Lemma sorted_by_perm_eq (l l' : list A) :
  distinct_keys key l = true -> Permutation l l' ->
  sorted_by key l = sorted_by key l'.
Proof.
  intros Hd Hp.
  assert (Hn : NoDup (map (canon key) l)) by now apply distinct_keys_NoDup.
  assert (Hpl : Permutation (sorted_by key l) (sorted_by key l')).
  { rewrite (sorted_by_perm l), (sorted_by_perm l'). exact Hp. }
  apply strictly_ascending_perm_eq; [| |exact Hpl].
  - apply ascending_NoDup_strict; [apply sorted_by_ascending|].
    apply Permutation_NoDup with (map (canon key) l); [|exact Hn].
    apply Permutation_map. symmetry. apply sorted_by_perm.
  - apply ascending_NoDup_strict; [apply sorted_by_ascending|].
    apply Permutation_NoDup with (map (canon key) l); [|exact Hn].
    apply Permutation_map. rewrite (sorted_by_perm l'). exact Hp.
Qed.
End SortedBy.

End SortFacts.

(* ================================================================== *)
(** * Ranking of a tick *)
(* ================================================================== *)

Module RankingFacts.
Import Py Controller Spec SortFacts.
Local Open Scope Q_scope.

(** C4, as the code has it.  The ranking of a tick is the stable sort of
    the scored jobs by score: a permutation of them in ascending score
    order in which the jobs of equal score keep the order in which the
    gang filter handed them to the scorer. *)
Theorem C4_ranking_is_stable_sort
        (drf_scheduler : DRFScheduler) (clock : nat -> Z)
        (job : JobInfo) (jobs : list JobInfo) (cluster : ClusterInfo) :
  let scored :=
    score_jobs drf_scheduler clock cluster
               (handle_gang_scheduling (job :: jobs)) in
  let ranked :=
    calculate_job_priorities drf_scheduler clock (job :: jobs) (Some cluster) in
  Permutation ranked scored
  /\ ascending snd ranked
  /\ (forall q, tied_at snd q ranked = tied_at snd q scored).
Proof.
  intros scored ranked.
  assert (E : ranked = sorted_by snd scored) by reflexivity.
  rewrite E. split; [apply sorted_by_perm|].
  split; [apply sorted_by_ascending|].
  intro q. apply sorted_by_tied.
Qed.

(** C4, as stated, fails.  Jobs "a" and "b" have the same score and the
    same creation instant; presented as b, a they are ranked b, a, and
    presented as a, b they are ranked a, b. *)
Lemma C4_tie_break_counterexample :
  map (fun p => name (fst p))
      (calculate_job_priorities (DRFScheduler_init None) Samples.clock0
         [Samples.job_b; Samples.job_a] (Some Samples.cluster1))
    = ["b"; "a"]%string
  /\ map (fun p => name (fst p))
         (calculate_job_priorities (DRFScheduler_init None) Samples.clock0
            [Samples.job_a; Samples.job_b] (Some Samples.cluster1))
       = ["a"; "b"]%string
  /\ calculate_priority_score (DRFScheduler_init None) 0
                              Samples.job_a Samples.cluster1
       == calculate_priority_score (DRFScheduler_init None) 0
                                   Samples.job_b Samples.cluster1
  /\ creation_timestamp Samples.job_a = creation_timestamp Samples.job_b
  /\ String.ltb "a" "b" = true.
Proof.
  repeat split; vm_compute; reflexivity.
Qed.

End RankingFacts.

(* ================================================================== *)
(** * Job observer *)
(* ================================================================== *)

Module ObserverFacts.
Import Py Controller Spec.

Section Observer.
Context {FT : FloatText}.

Lemma raise_is_ValueError (A : Type) (e : exn) : @Raise A e = Raise ValueError.
Proof. destruct e. reflexivity. Qed.

Lemma extract_requests_rejected (rq : Requests) :
  rejected_field rq -> extract_requests rq = Raise ValueError.
Proof.
  unfold extract_requests.
  intros [(s & Hs & Hp) | [(s & Hs & Hp) | (s & Hs & Hp)]]; rewrite Hs.
  - rewrite Hp. reflexivity.
  - destruct (cpu rq) as [c|]; [destruct (_parse_cpu_request c) as [v|e]|];
      simpl; rewrite ?Hp; simpl; auto using raise_is_ValueError.
  - destruct (cpu rq) as [c|]; [destruct (_parse_cpu_request c) as [v|e]|];
      simpl; auto using raise_is_ValueError;
      (destruct (memory rq) as [m|];
       [destruct (_parse_memory_request m) as [w|e']|]);
      simpl; rewrite ?Hp; simpl; auto using raise_is_ValueError.
Qed.

Lemma extract_resources_first (job : V1Job) (rq : Requests) :
  first_requests job = Some rq ->
  extract_resources job = extract_requests rq.
Proof.
  unfold first_requests, extract_resources.
  destruct (spec_containers job) as [|container rest]; [discriminate|].
  destruct (container_resources container) as [rr|]; [|discriminate].
  intros ->. reflexivity.
Qed.

Lemma extract_job_info_rejected (job : V1Job) (rq : Requests) :
  first_requests job = Some rq -> rejected_field rq ->
  _extract_job_info job = None.
Proof.
  intros Hfirst Hrej. unfold _extract_job_info.
  rewrite (extract_resources_first _ Hfirst), (extract_requests_rejected Hrej).
  reflexivity.
Qed.

Lemma collect_pending_app (l1 l2 : list V1Job) :
  collect_pending (l1 ++ l2) = collect_pending l1 ++ collect_pending l2.
Proof.
  induction l1 as [|job l1 IH]; [reflexivity|].
  simpl. destruct (is_pending job); [|exact IH].
  destruct (_extract_job_info job); [|exact IH].
  simpl. now rewrite IH.
Qed.

(** C6, as the code has it.  When the parser rejects one of the quantity
    strings of a pending job, the extraction of that job raises and
    returns [None]: the observer leaves the job out of the tick, and the
    listing yields what it would without it. *)
Theorem C6_rejected_quantity_skips_job (job : V1Job) (rq : Requests) :
  first_requests job = Some rq ->
  rejected_field rq ->
  _extract_job_info job = None
  /\ forall before after,
       get_pending_jobs (Some (before ++ job :: after))
       = get_pending_jobs (Some (before ++ after)).
Proof.
  intros Hfirst Hrej.
  pose proof (extract_job_info_rejected _ Hfirst Hrej) as Hnone.
  split; [exact Hnone|].
  intros before after. simpl.
  rewrite !collect_pending_app. f_equal.
  simpl. rewrite Hnone. now destruct (is_pending job).
Qed.
End Observer.

Lemma C6_rejected_quantity_skips_job_witness :
  first_requests Samples.job_lots
    = Some {| cpu := Some "2"%string; memory := Some "lots"%string;
              nvidia_com_gpu := None |}
  /\ @_parse_memory_request decimal_text "lots" = Raise ValueError
  /\ @_extract_job_info decimal_text Samples.job_lots = None.
Proof.
  split; [reflexivity|]. split; [reflexivity|].
  refine (proj1 (@C6_rejected_quantity_skips_job decimal_text
                   Samples.job_lots _ eq_refl _)).
  right. left. exists "lots"%string. split; reflexivity.
Defined.

(** C6, as stated, fails.  A pending job requesting cpu "2" and memory
    "lots" is not converted with the memory left out: its extraction
    yields nothing and the job is missing from the pending list, while
    the same job with memory "2Gi" is converted. *)
Lemma C6_field_absent_counterexample :
  @_parse_memory_request decimal_text "lots" = Raise ValueError
  /\ (~ exists job_info,
         @_extract_job_info decimal_text Samples.job_lots = Some job_info)
  /\ @get_pending_jobs decimal_text (Some [Samples.job_lots]) = []
  /\ option_map resources (@_extract_job_info decimal_text Samples.job_2Gi)
       = Some [(CPU, 2%Q); (MEMORY, (2 * 1024)%Q)].
Proof.
  split; [reflexivity|]. split; [|split; reflexivity].
  intros [job_info H]. vm_compute in H. discriminate.
Qed.

End ObserverFacts.

(* ================================================================== *)
(** * Slicing a list into batches *)
(* ================================================================== *)

Module BatchFacts.
Import Py Spec.
Local Open Scope nat_scope.

Section Lists.
Variable A : Type.

Lemma enumerate_length (l : list A) :
  forall start, List.length (enumerate start l) = List.length l.
Proof.
  induction l as [|x l IH]; intro start; simpl; [reflexivity|].
  now rewrite IH.
Qed.

Lemma enumerate_app (l1 l2 : list A) :
  forall start,
    enumerate start (l1 ++ l2)
    = enumerate start l1 ++ enumerate (start + List.length l1) l2.
Proof.
  induction l1 as [|x l1 IH]; intro start; simpl.
  - now rewrite Nat.add_0_r.
  - rewrite IH. now rewrite Nat.add_succ_r.
Qed.

Lemma enumerate_snd (l : list A) :
  forall start, map snd (enumerate start l) = l.
Proof.
  induction l as [|x l IH]; intro start; simpl; [reflexivity|].
  now rewrite IH.
Qed.

Lemma enumerate_fst (l : list A) :
  forall start, map fst (enumerate start l) = seq start (List.length l).
Proof.
  induction l as [|x l IH]; intro start; simpl; [reflexivity|].
  now rewrite IH.
Qed.

Lemma firstn_add (a b : nat) :
  forall l : list A, firstn (a + b) l = firstn a l ++ firstn b (skipn a l).
Proof.
  induction a as [|a IH]; intro l; [reflexivity|].
  destruct l as [|x l]; simpl.
  - now rewrite firstn_nil.
  - now rewrite IH.
Qed.

Lemma slice_ten (i : nat) (l : list A) :
  slice i (i + 10) l = firstn 10 (skipn i l).
Proof.
  unfold slice. now replace (i + 10 - i) with 10 by lia.
Qed.

Lemma chunk_length (l : list A) (k : nat) :
  List.length (chunk l k) = Nat.min 10 (List.length l - 10 * k).
Proof.
  unfold chunk.
  rewrite enumerate_length, length_firstn, length_skipn.
  now rewrite (Nat.mul_comm k 10).
Qed.

(** Consecutive chunks, glued, are a stretch of the numbered list. *)
Lemma concat_chunks (l : list A) (n : nat) :
  forall m,
    List.concat (map (chunk l) (seq m n))
    = enumerate (m * 10 + 1) (firstn (n * 10) (skipn (m * 10) l)).
Proof.
  induction n as [|n IH]; intro m; [reflexivity|].
  cbn [seq map]. rewrite concat_cons, IH.
  replace (S n * 10) with (10 + n * 10) by lia.
  rewrite firstn_add, enumerate_app, skipn_skipn.
  replace (10 + m * 10) with (S m * 10) by lia.
  unfold chunk. f_equal.
  destruct (Nat.le_gt_cases 10 (List.length (skipn (m * 10) l))) as [Hlong | Hshort].
  - rewrite length_firstn, Nat.min_l by exact Hlong. f_equal. lia.
  - rewrite length_skipn in Hshort.
    rewrite (@skipn_all2 _ (S m * 10) l) by lia.
    now rewrite !firstn_nil.
Qed.

Lemma nth_error_chunks (l : list A) (n k : nat) (batch : list (nat * A)) :
  nth_error (map (chunk l) (seq 0 n)) k = Some batch ->
  k < n /\ batch = chunk l k.
Proof.
  rewrite nth_error_map, nth_error_seq.
  destruct (Nat.ltb_spec k n) as [Hlt | Hge]; simpl; [|discriminate].
  intro H. injection H as <-. split; [exact Hlt | reflexivity].
Qed.

(** In a sorted concatenation, an earlier block holds the smaller
    items. *)
Lemma StronglySorted_app_cross (R : A -> A -> Prop) (l1 l2 : list A) :
  StronglySorted R (l1 ++ l2) ->
  StronglySorted R l2 /\ forall x y, In x l1 -> In y l2 -> R x y.
Proof.
  induction l1 as [|a l1 IH]; simpl; intro Hs.
  - split; [exact Hs | intros x y []].
  - inversion Hs as [|a' l' Hs' Hall]; subst.
    destruct (IH Hs') as [H2 Hcross]. split; [exact H2|].
    intros x y [<- | Hx] Hy.
    + rewrite Forall_forall in Hall. apply Hall, in_or_app. now right.
    + now apply Hcross.
Qed.

Lemma StronglySorted_concat_cross (R : A -> A -> Prop) (ls : list (list A)) :
  StronglySorted R (List.concat ls) ->
  forall i j bi bj x y,
    i < j -> nth_error ls i = Some bi -> nth_error ls j = Some bj ->
    In x bi -> In y bj -> R x y.
Proof.
  induction ls as [|b ls IH]; intros Hs i j bi bj x y Hij Hi Hj Hx Hy.
  - destruct i; discriminate.
  - rewrite concat_cons in Hs.
    destruct (@StronglySorted_app_cross R b (List.concat ls) Hs) as [Hrest Hcross].
    destruct j as [|j]; [lia|]. simpl in Hj.
    destruct i as [|i]; simpl in Hi.
    + injection Hi as ->. apply Hcross; [exact Hx|].
      apply in_concat. exists bj. split; [|exact Hy].
      exact (nth_error_In _ _ Hj).
    + apply (IH Hrest i j bi bj); auto. lia.
Qed.
End Lists.

Lemma range_step_ten (stop : nat) :
  range_step stop 10 = map (fun k => k * 10) (seq 0 ((stop + 9) / 10)).
Proof.
  unfold range_step. now replace (stop + 10 - 1) with (stop + 9) by lia.
Qed.

Lemma batch_count_covers (N : nat) : N <= (N + 9) / 10 * 10.
Proof.
  pose proof (Nat.div_mod_eq (N + 9) 10) as E.
  pose proof (Nat.mod_upper_bound (N + 9) 10) as B.
  lia.
Qed.

Lemma batch_index_bound (N k : nat) : k < (N + 9) / 10 -> 10 * k < N.
Proof.
  pose proof (Nat.div_mod_eq (N + 9) 10) as E.
  pose proof (Nat.mod_upper_bound (N + 9) 10) as B.
  lia.
Qed.

End BatchFacts.

(* ================================================================== *)
(** * Queue updater *)
(* ================================================================== *)

Module KueueFacts.
Import Py Controller Kueue Spec SortFacts BatchFacts.
Local Open Scope nat_scope.

(** ** The patch *)

Lemma quot_sign (n d : Z) : (0 < d)%Z -> (0 <= (n ÷ d) * n)%Z.
Proof.
  intro Hd. destruct (Z.le_gt_cases 0 n) as [Hn | Hn].
  - rewrite Z.quot_div_nonneg by lia.
    pose proof (Z.div_pos n d Hn Hd). nia.
  - assert (E : (n ÷ d = - ((- n) ÷ d))%Z)
      by (rewrite Z.quot_opp_l by lia; lia).
    rewrite E, Z.quot_div_nonneg by lia.
    assert (0 <= - n / d)%Z by (apply Z.div_pos; lia). nia.
Qed.

Lemma quot_abs_div (n d : Z) : (0 < d)%Z -> (Z.abs (n ÷ d) = Z.abs n / d)%Z.
Proof.
  intro Hd. rewrite <- Z.quot_abs by lia.
  rewrite (Z.abs_eq d) by lia. apply Z.quot_div_nonneg; lia.
Qed.

Lemma int_of_float_toward_zero (x : Q) : toward_zero x (int_of_float x).
Proof.
  destruct x as [n d]. unfold toward_zero, int_of_float. cbn [Qnum Qden].
  assert (Hd : (0 < Zpos d)%Z) by lia.
  pose proof (quot_sign n Hd) as Hs.
  pose proof (quot_abs_div n Hd) as Ha.
  pose proof (Z.mul_div_le (Z.abs n) (Zpos d) Hd) as Hle.
  pose proof (Z.mul_succ_div_gt (Z.abs n) (Zpos d) Hd) as Hgt.
  rewrite <- Ha in Hle, Hgt.
  set (p := (n ÷ Zpos d)%Z) in *.
  unfold Qle, Qlt, Qabs, inject_Z, Qplus, Qmult. cbn [Qnum Qden].
  repeat split; nia.
Qed.

(** The three conditions of [toward_zero] leave one integer. *)
Lemma toward_zero_unique (x : Q) (n : Z) :
  toward_zero x n -> n = int_of_float x.
Proof.
  intros (H1 & H2 & H3).
  destruct (int_of_float_toward_zero x) as (K1 & K2 & K3).
  set (p := int_of_float x) in *. clearbody p.
  destruct x as [a d].
  unfold Qle, Qlt, Qabs, inject_Z, Qplus, Qmult in *. cbn [Qnum Qden] in *.
  assert (Hd : (0 < Zpos d)%Z) by lia.
  assert (Habs : Z.abs n = Z.abs p) by nia.
  destruct (Z.eq_dec n p) as [E | E]; [exact E|].
  assert (n = (- p)%Z) by lia. subst n.
  assert (p <> 0%Z) by lia. nia.
Qed.

(** C7, as the code has it.  The patch sent for a job of score s sets
    spec.priority to s * 1000 cut toward zero, and carries the three
    drf-scheduler annotations: the score, the rank and the updater. *)
Theorem C7_patch_priority_truncates
        {FT : FloatText} {API : CustomObjectsApi}
        (workload : Workload) (priority_score : Q) (rank : nat) :
  let call := fst (_update_workload_priority workload priority_score rank) in
  spec_priority (body call) = int_of_float (priority_score * 1000)
  /\ toward_zero (priority_score * 1000) (spec_priority (body call))
  /\ annotations (body call)
     = [("drf-scheduler/priority-score", str_of_float priority_score);
        ("drf-scheduler/rank", str_of_nat rank);
        ("drf-scheduler/updated-by", "drf-controller")]%string
  /\ patch_name call = workload_name workload
  /\ patch_namespace call = workload_namespace workload.
Proof.
  intro call. split; [reflexivity|].
  split; [apply int_of_float_toward_zero|].
  repeat split.
Qed.

(** C7, as stated, fails.  For the score 1/1024 the product with 1000 is
    0.9765625, whose nearest integer is 1; the patch carries 0. *)
Lemma C7_round_counterexample :
  spec_priority
    (body (fst (@_update_workload_priority decimal_text Samples.queue_ok
                  Samples.a_workload (1 # 1024) 1)))
  = 0%Z
  /\ ~ nearest_integer ((1 # 1024) * 1000) 0
  /\ nearest_integer ((1 # 1024) * 1000) 1.
Proof.
  split; [reflexivity|]. split.
  - unfold nearest_integer. vm_compute. intro H. now apply H.
  - unfold nearest_integer. vm_compute. discriminate.
Qed.

(** ** Batches *)

Section Updater.
Context {FT : FloatText} {API : CustomObjectsApi}.

Lemma batches_chunks (job_priorities : list (JobInfo * Q)) :
  batches (update_all_job_priorities job_priorities)
  = map (chunk (sorted_by snd job_priorities))
        (seq 0 ((List.length job_priorities + 9) / 10)).
Proof.
  unfold update_all_job_priorities. cbn [batches]. unfold batch_size.
  rewrite range_step_ten, map_map, sorted_by_length.
  apply map_ext. intro k. now rewrite slice_ten.
Qed.

Lemma concat_batches (job_priorities : list (JobInfo * Q)) :
  List.concat (batches (update_all_job_priorities job_priorities))
  = enumerate 1 (sorted_by snd job_priorities).
Proof.
  rewrite batches_chunks, concat_chunks. cbn [Nat.mul Nat.add skipn].
  rewrite firstn_all2; [reflexivity|].
  rewrite sorted_by_length. apply batch_count_covers.
Qed.

Lemma enumerate_ascending (l : list (JobInfo * Q)) :
  ascending snd l ->
  forall start,
    StronglySorted (fun x y => (score_of x <= score_of y)%Q)
                   (enumerate start l).
Proof.
  unfold ascending. induction 1 as [|a l Hs IH Hall]; intro start; simpl.
  - constructor.
  - constructor; [apply IH|].
    rewrite Forall_forall in *. intros [r y] Hy.
    apply (in_map snd) in Hy. rewrite enumerate_snd in Hy.
    exact (Hall y Hy).
Qed.

(** C8.  The updater numbers the jobs in ascending score order and cuts
    that sequence into consecutive batches of ten, the last one possibly
    shorter, submitted one after the other: a job of an earlier batch
    never has a higher score than a job of a later one.  Twenty-five
    jobs make three batches of 10, 10 and 5, the first holding the ten
    lowest scores. *)
Theorem C8_batches_of_ten (job_priorities : list (JobInfo * Q)) :
  let report := update_all_job_priorities job_priorities in
  let ranked := sorted_by snd job_priorities in
  let N := List.length job_priorities in
  List.concat (batches report) = enumerate 1 ranked
  /\ ascending snd ranked
  /\ Permutation ranked job_priorities
  /\ List.length (batches report) = (N + 9) / 10
  /\ (forall k batch,
        nth_error (batches report) k = Some batch ->
        List.length batch = Nat.min 10 (N - 10 * k)
        /\ 1 <= List.length batch <= 10
        /\ (S k < List.length (batches report) -> List.length batch = 10))
  /\ (forall i j bi bj x y,
        i < j ->
        nth_error (batches report) i = Some bi ->
        nth_error (batches report) j = Some bj ->
        In x bi -> In y bj -> (score_of x <= score_of y)%Q)
  /\ outcomes report = map (map patch_job) (batches report)
  /\ (N = 25 ->
      map (@List.length _) (batches report) = [10; 10; 5]
      /\ nth_error (batches report) 0 = Some (enumerate 1 (firstn 10 ranked))).
Proof.
  intros report ranked N.
  assert (Hcount : List.length (batches report) = (N + 9) / 10).
  { unfold report. now rewrite batches_chunks, length_map, length_seq. }
  assert (Hlen : List.length ranked = N) by apply sorted_by_length.
  split; [apply concat_batches|].
  split; [apply sorted_by_ascending|].
  split; [apply sorted_by_perm|].
  split; [exact Hcount|].
  split; [|split; [|split; [reflexivity|]]].
  - intros k batch Hk. unfold report in Hk. rewrite batches_chunks in Hk.
    apply nth_error_chunks in Hk. destruct Hk as [Hlt ->].
    fold ranked. rewrite chunk_length, Hlen.
    pose proof (@batch_index_bound N k Hlt) as Hk.
    split; [reflexivity|]. split; [lia|].
    rewrite Hcount. intro Hnext.
    pose proof (@batch_index_bound N (S k) Hnext). lia.
  - intros i j bi bj x y Hij Hi Hj Hx Hy.
    refine (@StronglySorted_concat_cross _
              (fun x y => (score_of x <= score_of y)%Q)
              (batches report) _ i j bi bj x y Hij Hi Hj Hx Hy).
    unfold report. rewrite concat_batches.
    apply enumerate_ascending, sorted_by_ascending.
  - intro H25. unfold report. rewrite batches_chunks. fold N ranked.
    rewrite H25. change ((25 + 9) / 10) with 3. cbn [seq map nth_error].
    rewrite !chunk_length, Hlen, H25. split; [reflexivity|].
    unfold chunk. reflexivity.
Qed.

(** C10.  When the scores are pairwise distinct, the updater does the
    same on every presentation order of its input: the same batches with
    the same rank for each job, the same patches, the same outcome for
    each, and the same success count. *)
Theorem C10_updater_order_independent (l l' : list (JobInfo * Q)) :
  distinct_keys snd l = true ->
  Permutation l l' ->
  update_all_job_priorities l = update_all_job_priorities l'.
Proof.
  intros Hd Hp. unfold update_all_job_priorities.
  now rewrite (sorted_by_perm_eq snd Hd Hp).
Qed.
End Updater.

Lemma C8_batches_of_ten_witness :
  List.length Samples.scored25 = 25
  /\ map (@List.length _)
         (batches (@update_all_job_priorities decimal_text Samples.queue_ok
                     Samples.scored25))
     = [10; 10; 5]
  /\ nth_error
       (batches (@update_all_job_priorities decimal_text Samples.queue_ok
                   Samples.scored25)) 0
     = Some (enumerate 1 (firstn 10 (sorted_by snd Samples.scored25))).
Proof.
  split; [reflexivity|].
  exact (proj2 (proj2 (proj2 (proj2 (proj2 (proj2 (proj2
           (@C8_batches_of_ten decimal_text Samples.queue_ok
              Samples.scored25))))))) eq_refl).
Defined.

Lemma C10_updater_order_independent_witness :
  distinct_keys snd Samples.scored_ab = true
  /\ Permutation Samples.scored_ab (rev Samples.scored_ab)
  /\ @update_all_job_priorities decimal_text Samples.queue_ok
       Samples.scored_ab
     = @update_all_job_priorities decimal_text Samples.queue_ok
         (rev Samples.scored_ab).
Proof.
  split; [reflexivity|]. split; [apply Permutation_rev|].
  apply (@C10_updater_order_independent decimal_text Samples.queue_ok);
    [reflexivity | apply Permutation_rev].
Defined.

End KueueFacts.

(* ================================================================== *)
(** * Text and dictionary lemmas *)
(* ================================================================== *)

Module TextFacts.
Import Py.
Local Open Scope string_scope.

Lemma str_rev_acc_app (s t acc : string) :
  str_rev_acc (s ++ t) acc = str_rev_acc t (str_rev_acc s acc).
Proof.
  revert acc. induction s as [|c s IH]; intro acc; simpl; [reflexivity|].
  apply IH.
Qed.

Lemma prefix_refl_app (a b : string) : String.prefix a (a ++ b) = true.
Proof.
  induction a as [|c a IH]; simpl.
  - now destruct b.
  - destruct (ascii_dec c c) as [_ | N]; [exact IH | now elim N].
Qed.

Lemma prefix_split (a b : string) :
  String.prefix a b = true <-> exists post, b = a ++ post.
Proof.
  split.
  - revert b. induction a as [|c a IH]; intros b H.
    + now exists b.
    + destruct b as [|c' b]; [discriminate|]. simpl in H.
      destruct (ascii_dec c c') as [<- | _]; [|discriminate].
      destruct (IH b H) as [post ->]. now exists post.
  - intros [post ->]. apply prefix_refl_app.
Qed.

Lemma prefix_empty (s : string) : String.prefix "" s = true.
Proof. now destruct s. Qed.

Lemma prefix_same (c : ascii) (a s : string) :
  String.prefix (String c a) (String c s) = String.prefix a s.
Proof.
  simpl. destruct (ascii_dec c c) as [_ | N]; [reflexivity | now elim N].
Qed.

Lemma prefix_differ (c d : ascii) (a s : string) :
  c <> d -> String.prefix (String c a) (String d s) = false.
Proof.
  intro N. simpl. destruct (ascii_dec c d) as [E | _]; [now elim N | reflexivity].
Qed.

Lemma length_app (s t : string) :
  String.length (s ++ t) = (String.length s + String.length t)%nat.
Proof.
  induction s as [|c s IH]; simpl; [reflexivity|]. now rewrite IH.
Qed.

Lemma substring_app (s t : string) :
  String.substring 0 (String.length s) (s ++ t) = s.
Proof.
  induction s as [|c s IH]; simpl.
  - now destruct t.
  - now rewrite IH.
Qed.

Lemma drop_last_app (s suffix : string) :
  drop_last (String.length suffix) (s ++ suffix) = s.
Proof.
  unfold drop_last. rewrite length_app.
  replace (String.length s + String.length suffix - String.length suffix)%nat
    with (String.length s) by lia.
  apply substring_app.
Qed.

Lemma drop_last_1 (s : string) (c : ascii) :
  drop_last 1 (s ++ String c "") = s.
Proof. exact (drop_last_app s (String c "")). Qed.

Lemma drop_last_2 (s : string) (c d : ascii) :
  drop_last 2 (s ++ String c (String d "")) = s.
Proof. exact (drop_last_app s (String c (String d ""))). Qed.

Lemma app_assoc (a b c : string) : (a ++ b) ++ c = a ++ (b ++ c).
Proof.
  induction a as [|x a IH]; simpl; [reflexivity|]. now rewrite IH.
Qed.

Lemma str_contains_unfold (needle hay : string) :
  str_contains needle hay =
    String.prefix needle hay ||
    match hay with
    | EmptyString => false
    | String _ hay' => str_contains needle hay'
    end.
Proof. destruct hay; reflexivity. Qed.

(** [needle in hay] holds exactly when [hay] splits around [needle]. *)
Lemma str_contains_split (needle hay : string) :
  str_contains needle hay = true <->
  exists pre post, hay = pre ++ needle ++ post.
Proof.
  split.
  - induction hay as [|c hay IH];
      rewrite str_contains_unfold, orb_true_iff.
    + intros [H | H]; [|discriminate].
      apply prefix_split in H. destruct H as [post ->].
      now exists "", post.
    + intros [H | H].
      * apply prefix_split in H. destruct H as [post H].
        exists "", post. exact H.
      * destruct (IH H) as (pre & post & ->).
        now exists (String c pre), post.
  - intros (pre & post & ->).
    induction pre as [|c pre IH].
    + rewrite str_contains_unfold.
      change ("" ++ needle ++ post) with (needle ++ post).
      now rewrite prefix_refl_app.
    + change (String c pre ++ needle ++ post)
        with (String c (pre ++ needle ++ post)).
      rewrite str_contains_unfold, IH. apply orb_true_r.
Qed.

Lemma str_contains_trans (a b c : string) :
  str_contains a b = true -> str_contains b c = true ->
  str_contains a c = true.
Proof.
  rewrite !str_contains_split.
  intros (p1 & q1 & ->) (p2 & q2 & ->).
  exists (p2 ++ p1), (q1 ++ q2).
  now rewrite !app_assoc.
Qed.

Lemma str_contains_empty (hay : string) : str_contains "" hay = true.
Proof. apply str_contains_split. now exists "", hay. Qed.

Lemma str_contains_refl (s : string) : str_contains s s = true.
Proof.
  apply str_contains_split. exists "", "". simpl.
  induction s as [|c s IH]; simpl; [reflexivity | now rewrite <- IH].
Qed.

End TextFacts.

(* ================================================================== *)
(** * Resource parsers *)
(* ================================================================== *)

Module ParserFacts.
Import Py Controller TextFacts.
Local Open Scope string_scope.

(** Decides [endswith] on a text whose last characters are known. *)
Ltac known_suffix :=
  unfold endswith, str_rev; rewrite str_rev_acc_app; cbn [str_rev_acc];
  repeat rewrite prefix_same;
  first [ apply prefix_empty | apply prefix_differ; discriminate ].

Section Parsers.
Context {FT : FloatText}.

Lemma py_float_ok (s : string) (q : Q) :
  float_of_str s = Some q -> py_float s = Ok q.
Proof. unfold py_float. now intros ->. Qed.

(** X1.  A CPU quantity written with the suffix m is a thousandth of
    the number before the suffix. *)
Theorem X1_parse_cpu_millicores (s : string) (q : Q) :
  float_of_str s = Some q ->
  _parse_cpu_request (s ++ "m") = Ok (q / 1000)%Q.
Proof.
  intro H. unfold _parse_cpu_request.
  replace (endswith (s ++ "m") "m") with true by (symmetry; known_suffix).
  rewrite drop_last_1, (py_float_ok _ H). reflexivity.
Qed.

(** X2.  A memory quantity is returned in mebibytes: the number before
    the suffix is divided by 1024 for Ki, kept for Mi, multiplied by
    1024 for Gi and by 1024 * 1024 for Ti. *)
Theorem X2_parse_memory_units (s : string) (q : Q) :
  float_of_str s = Some q ->
  _parse_memory_request (s ++ "Ki") = Ok (q / 1024)%Q
  /\ _parse_memory_request (s ++ "Mi") = Ok q
  /\ _parse_memory_request (s ++ "Gi") = Ok (q * 1024)%Q
  /\ _parse_memory_request (s ++ "Ti") = Ok (q * 1024 * 1024)%Q.
Proof.
  intro H. unfold _parse_memory_request. repeat split.
  - replace (endswith (s ++ "Ki") "Ki") with true by (symmetry; known_suffix).
    rewrite drop_last_2, (py_float_ok _ H). reflexivity.
  - replace (endswith (s ++ "Mi") "Ki") with false by (symmetry; known_suffix).
    replace (endswith (s ++ "Mi") "Mi") with true by (symmetry; known_suffix).
    rewrite drop_last_2. apply (py_float_ok _ H).
  - replace (endswith (s ++ "Gi") "Ki") with false by (symmetry; known_suffix).
    replace (endswith (s ++ "Gi") "Mi") with false by (symmetry; known_suffix).
    replace (endswith (s ++ "Gi") "Gi") with true by (symmetry; known_suffix).
    rewrite drop_last_2, (py_float_ok _ H). reflexivity.
  - replace (endswith (s ++ "Ti") "Ki") with false by (symmetry; known_suffix).
    replace (endswith (s ++ "Ti") "Mi") with false by (symmetry; known_suffix).
    replace (endswith (s ++ "Ti") "Gi") with false by (symmetry; known_suffix).
    replace (endswith (s ++ "Ti") "Ti") with true by (symmetry; known_suffix).
    rewrite drop_last_2, (py_float_ok _ H). reflexivity.
Qed.

(** A memory quantity without one of the four binary suffixes is read
    as a number of bytes, the whole text going to [float]. *)
Lemma parse_memory_plain (s : string) :
  endswith s "Ki" = false -> endswith s "Mi" = false ->
  endswith s "Gi" = false -> endswith s "Ti" = false ->
  _parse_memory_request s =
    match float_of_str s with
    | Some q => Ok (q / (1024 * 1024))%Q
    | None => Raise ValueError
    end.
Proof.
  intros H1 H2 H3 H4. unfold _parse_memory_request, py_float.
  rewrite H1, H2, H3, H4. now destruct (float_of_str s).
Qed.
End Parsers.

Lemma X1_parse_cpu_millicores_witness :
  @_parse_cpu_request decimal_text "500m" = Ok (500 / 1000)%Q.
Proof.
  exact (@X1_parse_cpu_millicores decimal_text "500" (500 # 1) eq_refl).
Defined.

Lemma X2_parse_memory_units_witness :
  @_parse_memory_request decimal_text "2Gi" = Ok (2 * 1024)%Q.
Proof.
  exact (proj1 (proj2 (proj2
           (@X2_parse_memory_units decimal_text "2" (2 # 1) eq_refl)))).
Defined.

End ParserFacts.

(* ================================================================== *)
(** * More on the DRF scorer *)
(* ================================================================== *)

Module ScoreFacts.
Import Py Controller Spec PyFacts ScorerFacts.
Local Open Scope Q_scope.






(** ** Bounds of the dominant share *)

Lemma calculate_dominant_share_cases (job : JobInfo) (cluster : ClusterInfo) :
  calculate_dominant_share job cluster = 0
  \/ exists k r, In (k, r) (resources job) /\ considered cluster k = true
                 /\ calculate_dominant_share job cluster = r / total cluster k.
Proof.
  unfold calculate_dominant_share.
  destruct (dominant_shares cluster (resources job)) as [|first rest] eqn:E;
    [now left|].
  right. apply dominant_shares_in. rewrite E. apply max_list_in.
Qed.

(** X5.  When the requested amounts are non-negative and none exceeds
    the cluster total of its kind, the dominant share lies between 0
    and 1. *)
Theorem X5_dominant_share_unit_interval (job : JobInfo) (cluster : ClusterInfo) :
  nonneg_request job = true ->
  within_capacity cluster job = true ->
  0 <= calculate_dominant_share job cluster <= 1.
Proof.
  intros Hn Hw.
  destruct (calculate_dominant_share_cases job cluster)
    as [-> | (k & r & Hin & Hc & ->)]; [split; discriminate|].
  pose proof (considered_pos _ _ Hc) as Ht.
  split.
  - apply share_nonneg; [exact (nonneg_request_in _ _ _ Hn Hin) | exact Ht].
  - apply Qle_shift_div_r; [exact Ht|]. rewrite Qmult_1_l.
    unfold within_capacity in Hw. rewrite forallb_forall in Hw.
    specialize (Hw (k, r) Hin). cbn [fst snd] in Hw.
    rewrite Hc in Hw. simpl in Hw. now apply Qle_bool_iff.
Qed.

Lemma X5_dominant_share_unit_interval_witness :
  0 <= calculate_dominant_share Samples.jobA Samples.cluster1 <= 1.
Proof.
  apply (@X5_dominant_share_unit_interval Samples.jobA Samples.cluster1);
    reflexivity.
Defined.

(** ** The order of the request dictionary *)

Lemma dominant_shares_perm (cluster : ClusterInfo)
      (items items' : dict ResourceType Q) :
  Permutation items items' ->
  Permutation (dominant_shares cluster items) (dominant_shares cluster items').
Proof.
  induction 1 as [| [k r] l l' _ IH | [k1 r1] [k2 r2] l | l l' l'' _ IH1 _ IH2].
  - constructor.
  - rewrite !dominant_shares_cons.
    destruct (considered cluster k); [now constructor | exact IH].
  - rewrite !dominant_shares_cons.
    destruct (considered cluster k1), (considered cluster k2);
      try reflexivity. apply perm_swap.
  - now transitivity (dominant_shares cluster l').
Qed.

Lemma max_list_perm (f1 f2 : Q) (r1 r2 : list Q) :
  Permutation (f1 :: r1) (f2 :: r2) -> max_list f1 r1 == max_list f2 r2.
Proof.
  intro Hp.
  assert (Hle : forall a b ra rb,
             Permutation (a :: ra) (b :: rb) -> max_list a ra <= max_list b rb).
  { intros a b ra rb H.
    pose proof (max_list_in ra a) as Hin.
    apply (Permutation_in _ H) in Hin.
    destruct (max_list_upper rb b) as [Hb Hrb].
    destruct Hin as [<- | Hin]; [exact Hb|].
    rewrite Forall_forall in Hrb. now apply Hrb. }
  apply Qle_antisym; [now apply Hle | apply Hle; now symmetry].
Qed.

(** X6.  The dominant share does not depend on the order in which the
    request dictionary lists the kinds. *)
Theorem X6_dominant_share_order_free (job job' : JobInfo) (cluster : ClusterInfo) :
  Permutation (resources job) (resources job') ->
  calculate_dominant_share job cluster == calculate_dominant_share job' cluster.
Proof.
  intro Hp. apply (dominant_shares_perm cluster) in Hp.
  unfold calculate_dominant_share.
  destruct (dominant_shares cluster (resources job)) as [|f1 r1];
    destruct (dominant_shares cluster (resources job')) as [|f2 r2].
  - reflexivity.
  - now apply Permutation_nil in Hp.
  - symmetry in Hp. now apply Permutation_nil in Hp.
  - now apply max_list_perm.
Qed.

Lemma X6_dominant_share_order_free_witness :
  calculate_dominant_share Samples.jobA Samples.cluster1
  == calculate_dominant_share
       (Samples.plain_job "A" URGENT 0 (rev (resources Samples.jobA)))
       Samples.cluster1.
Proof.
  apply (@X6_dominant_share_order_free Samples.jobA
           (Samples.plain_job "A" URGENT 0 (rev (resources Samples.jobA)))
           Samples.cluster1).
  apply Permutation_rev.
Defined.

(** ** [apply_aging] *)

(** X7.  [apply_aging] never returns a negative share.  For a job
    created in the past, a non-negative aging constant and a
    non-negative share, it returns at most the share it was given, and
    0 as soon as alpha times the age in hours reaches that share. *)
Theorem X7_apply_aging_bounds (self : DRFScheduler) (now : Z)
        (dominant_share : Q) (job : JobInfo) :
  0 <= aging_alpha self ->
  (creation_timestamp job <= now)%Z ->
  0 <= dominant_share ->
  0 <= apply_aging self now dominant_share job <= dominant_share
  /\ (dominant_share <= aging_alpha self * (age_seconds now job / 3600) ->
      apply_aging self now dominant_share job == 0).
Proof.
  intros Ha Hn Hd.
  assert (Hage : 0 <= age_seconds now job / 3600).
  { unfold age_seconds, Qdiv, Qle. simpl. lia. }
  assert (Hprod : 0 <= aging_alpha self * (age_seconds now job / 3600))
    by now apply Qmult_le_0_compat.
  assert (Heq : aging_alpha self
                * (total_seconds (now - creation_timestamp job) / 3600)
                == aging_alpha self * (age_seconds now job / 3600))
    by now rewrite total_seconds_age.
  unfold apply_aging.
  destruct (Qlt_bool 0
              (dominant_share
               - aging_alpha self
                 * (total_seconds (now - creation_timestamp job) / 3600)))
    eqn:E.
  - apply Qlt_bool_iff in E. repeat split; lra.
  - repeat split; lra.
Qed.

Lemma X7_apply_aging_bounds_witness :
  0 <= apply_aging (DRFScheduler_init None) 3600000000 (1 # 4) Samples.jobA
    <= 1 # 4.
Proof.
  apply (@X7_apply_aging_bounds (DRFScheduler_init None) 3600000000 (1 # 4)
           Samples.jobA); vm_compute; discriminate.
Defined.

(** ** How far the class weight carries *)

(** X8.  For an URGENT and a NORMAL job scored at the same instant,
    both with a dominant share between 0 and 1: the URGENT job has the
    lower score as long as alpha times the age lead of the NORMAL job
    stays below 999, and the NORMAL job has the lower score once that
    product exceeds 1001. *)
Theorem X8_class_order_and_age_gap (self : DRFScheduler) (now : Z)
        (urgent normal : JobInfo) (cluster : ClusterInfo) :
  priority urgent = URGENT ->
  priority normal = NORMAL ->
  0 <= calculate_dominant_share urgent cluster <= 1 ->
  0 <= calculate_dominant_share normal cluster <= 1 ->
  (aging_alpha self * (age_seconds now normal - age_seconds now urgent) < 999 ->
   calculate_priority_score self now urgent cluster
   < calculate_priority_score self now normal cluster)
  /\ (1001 < aging_alpha self
             * (age_seconds now normal - age_seconds now urgent) ->
      calculate_priority_score self now normal cluster
      < calculate_priority_score self now urgent cluster).
Proof.
  intros Hu Hn Hdu Hdn.
  rewrite !score_unfold, Hu, Hn. simpl classWeight.
  assert (E : aging_alpha self
              * (age_seconds now normal - age_seconds now urgent)
              == aging_alpha self * age_seconds now normal
                 - aging_alpha self * age_seconds now urgent) by ring.
  rewrite E. split; intro H; lra.
Qed.

Lemma X8_class_order_and_age_gap_witness :
  calculate_priority_score (DRFScheduler_init None) 20000000000
      (Samples.plain_job "old" NORMAL 0 [(CPU, 4)]) Samples.cluster1
  < calculate_priority_score (DRFScheduler_init None) 20000000000
      (Samples.plain_job "new" URGENT 20000000000 [(CPU, 4)]) Samples.cluster1.
Proof.
  apply (@X8_class_order_and_age_gap (DRFScheduler_init None) 20000000000
           (Samples.plain_job "new" URGENT 20000000000 [(CPU, 4)])
           (Samples.plain_job "old" NORMAL 0 [(CPU, 4)])
           Samples.cluster1);
    try reflexivity; try (split; vm_compute; discriminate).
Defined.

End ScoreFacts.

(* ================================================================== *)
(** * More on the gang filter *)
(* ================================================================== *)

Module GangOrderFacts.
Import Py Controller Spec GangFacts.

Lemma ready_gangs_concat (groups : dict string (list JobInfo)) :
  ready_gangs groups = List.concat (map snd groups).
Proof.
  induction groups as [|[g members] rest IH]; [reflexivity|].
  simpl. replace (forallb JobInfo_bool members) with true.
  - now rewrite IH.
  - symmetry. apply forallb_forall. reflexivity.
Qed.

Lemma group_append_perm (gid : string) (job : JobInfo)
      (groups : dict string (list JobInfo)) :
  Permutation (List.concat (map snd (group_append gid job groups)))
              (List.concat (map snd groups) ++ [job]).
Proof.
  induction groups as [|[g members] rest IH]; simpl; [reflexivity|].
  destruct (String.eqb gid g); simpl.
  - rewrite <- !app_assoc. apply Permutation_app_head, Permutation_app_comm.
  - rewrite IH. now rewrite app_assoc.
Qed.

Lemma group_step_perm (groups : dict string (list JobInfo)) (job : JobInfo) :
  Permutation (List.concat (map snd (group_step groups job)))
              (List.concat (map snd groups) ++ filter grouped [job]).
Proof.
  unfold group_step, grouped. simpl.
  destruct (gang_id job) as [gid|].
  - destruct (gang_scheduling job && truthy_opt_str (Some gid)).
    + apply group_append_perm.
    + now rewrite app_nil_r.
  - rewrite andb_false_r. now rewrite app_nil_r.
Qed.

Lemma fold_group_step_perm (jobs : list JobInfo) :
  forall groups,
    Permutation (List.concat (map snd (fold_left group_step jobs groups)))
                (List.concat (map snd groups) ++ filter grouped jobs).
Proof.
  induction jobs as [|job jobs IH]; intro groups.
  - simpl. now rewrite app_nil_r.
  - cbn [fold_left]. rewrite IH, group_step_perm.
    change (job :: jobs) with ([job] ++ jobs).
    rewrite filter_app. now rewrite app_assoc.
Qed.

Lemma kept_split (jobs : list JobInfo) :
  Permutation
    (filter (fun j => grouped j || negb (gang_scheduling j)) jobs)
    (filter grouped jobs ++ filter (fun j => negb (gang_scheduling j)) jobs).
Proof.
  induction jobs as [|job jobs IH]; [reflexivity|].
  cbn [filter].
  destruct (gang_scheduling job) eqn:Eg.
  - assert (Egr : grouped job = truthy_opt_str (gang_id job))
      by (unfold grouped; now rewrite Eg).
    rewrite Egr. destruct (truthy_opt_str (gang_id job)); simpl.
    + apply perm_skip, IH.
    + exact IH.
  - assert (Egr : grouped job = false) by (unfold grouped; now rewrite Eg).
    rewrite Egr. simpl. rewrite <- Permutation_middle. apply perm_skip, IH.
Qed.

(** X9.  The gang filter rearranges, and neither invents nor repeats:
    its output is a permutation of the pending jobs that are not gang
    jobs or carry a gang id; the only jobs it leaves out are the gang
    jobs without one. *)
Theorem X9_gang_filter_keeps (jobs : list JobInfo) :
  Permutation (handle_gang_scheduling jobs)
              (filter (fun j => grouped j || negb (gang_scheduling j)) jobs).
Proof.
  unfold handle_gang_scheduling, gang_groups.
  rewrite kept_split, ready_gangs_concat, fold_group_step_perm.
  reflexivity.
Qed.

(** X10.  A pending list without gang jobs passes the filter unchanged,
    in the same order. *)
Theorem X10_no_gang_unchanged (jobs : list JobInfo) :
  forallb (fun j => negb (gang_scheduling j)) jobs = true ->
  handle_gang_scheduling jobs = jobs.
Proof.
  intro H. rewrite forallb_forall in H.
  unfold handle_gang_scheduling.
  assert (Hg : forall groups, fold_left group_step jobs groups = groups).
  { induction jobs as [|job jobs IH]; intro groups; [reflexivity|].
    cbn [fold_left]. unfold group_step at 2.
    assert (Hj : gang_scheduling job = false).
    { apply negb_true_iff, H. now left. }
    rewrite Hj. simpl.
    replace (match gang_id job with Some _ => groups | None => groups end)
      with groups by now destruct (gang_id job).
    apply IH. intros x Hx. apply H. now right. }
  unfold gang_groups. rewrite Hg. simpl.
  apply forallb_filter_id. now apply forallb_forall.
Qed.

Lemma X10_no_gang_unchanged_witness :
  handle_gang_scheduling [Samples.job_b; Samples.h1; Samples.job_a]
  = [Samples.job_b; Samples.h1; Samples.job_a].
Proof.
  apply (@X10_no_gang_unchanged [Samples.job_b; Samples.h1; Samples.job_a]).
  reflexivity.
Defined.

(** ** The shape of the groups *)

Lemma existsb_eqb_In (g : string) (l : list string) :
  existsb (String.eqb g) l = true <-> In g l.
Proof.
  rewrite existsb_exists. split.
  - intros (x & Hx & E). apply String.eqb_eq in E. now subst.
  - intro H. exists g. split; [exact H | apply String.eqb_refl].
Qed.

Lemma fold_ids_step_NoDup (jobs : list JobInfo) :
  forall seen, NoDup seen -> NoDup (fold_left ids_step jobs seen).
Proof.
  induction jobs as [|job jobs IH]; intros seen Hs; [exact Hs|].
  cbn [fold_left]. apply IH. unfold ids_step.
  destruct (gang_id job) as [g|]; [|exact Hs].
  destruct (grouped job); simpl; [|exact Hs].
  destruct (existsb (String.eqb g) seen) eqn:E; simpl; [exact Hs|].
  apply NoDup_app; [exact Hs | repeat constructor; intros [] | ].
  intros x Hx [<- | []].
  apply existsb_eqb_In in Hx. congruence.
Qed.

Lemma gang_ids_NoDup (jobs : list JobInfo) : NoDup (gang_ids jobs).
Proof. apply fold_ids_step_NoDup. constructor. Qed.

Lemma fold_ids_step_keeps (jobs : list JobInfo) (g : string) :
  forall seen, In g seen -> In g (fold_left ids_step jobs seen).
Proof.
  induction jobs as [|job jobs IH]; intros seen Hs; [exact Hs|].
  cbn [fold_left]. apply IH. unfold ids_step.
  destruct (gang_id job) as [g'|]; [|exact Hs].
  destruct (grouped job && negb (existsb (String.eqb g') seen)); [|exact Hs].
  apply in_or_app. now left.
Qed.

Lemma fold_ids_step_adds (jobs : list JobInfo) (g : string) (job : JobInfo) :
  In job jobs -> in_gang g job = true ->
  forall seen, In g (fold_left ids_step jobs seen).
Proof.
  intros Hin Hg. induction jobs as [|j jobs IH]; [destruct Hin|].
  intro seen. cbn [fold_left]. destruct Hin as [-> | Hin]; [|now apply IH].
  apply fold_ids_step_keeps. unfold in_gang in Hg. unfold ids_step.
  apply andb_true_iff in Hg. destruct Hg as [Hgr Hid].
  destruct (gang_id job) as [g'|]; [|discriminate].
  apply String.eqb_eq in Hid. subst g'. rewrite Hgr. simpl.
  destruct (existsb (String.eqb g) seen) eqn:E; simpl.
  - now apply existsb_eqb_In.
  - apply in_or_app. right. now left.
Qed.

Lemma members_of_absent (g : string) (jobs : list JobInfo) :
  ~ In g (gang_ids jobs) -> members_of g jobs = [].
Proof.
  intro Hn. unfold members_of.
  destruct (filter (in_gang g) jobs) as [|job rest] eqn:E; [reflexivity|].
  exfalso. apply Hn.
  assert (Hj : In job (filter (in_gang g) jobs)) by (rewrite E; now left).
  apply filter_In in Hj. destruct Hj as [Hin Hg].
  exact (@fold_ids_step_adds jobs g job Hin Hg []).
Qed.

Lemma group_append_present (g0 : string) (job : JobInfo)
      (members : string -> list JobInfo) (ids : list string) :
  NoDup ids -> In g0 ids ->
  group_append g0 job (map (fun g => (g, members g)) ids)
  = map (fun g => (g, members g ++ if String.eqb g0 g then [job] else []))
        ids.
Proof.
  induction ids as [|g ids IH]; intros Hn Hin; [destruct Hin|].
  inversion Hn as [|g' ids' Hnotin Hn']; subst.
  cbn [map group_append]. destruct (String.eqb g0 g) eqn:E.
  - apply String.eqb_eq in E. subst g0. f_equal.
    apply map_ext_in. intros g' Hg'.
    destruct (String.eqb g g') eqn:E'.
    + apply String.eqb_eq in E'. subst g'. contradiction.
    + now rewrite app_nil_r.
  - rewrite app_nil_r. f_equal. apply IH; [exact Hn'|].
    destruct Hin as [-> | Hin]; [|exact Hin].
    rewrite String.eqb_refl in E. discriminate.
Qed.

Lemma group_append_absent (g0 : string) (job : JobInfo)
      (members : string -> list JobInfo) (ids : list string) :
  ~ In g0 ids ->
  group_append g0 job (map (fun g => (g, members g)) ids)
  = map (fun g => (g, members g ++ if String.eqb g0 g then [job] else []))
        ids
    ++ [(g0, [job])].
Proof.
  induction ids as [|g ids IH]; intro Hn; [reflexivity|].
  cbn [map group_append]. destruct (String.eqb g0 g) eqn:E.
  - apply String.eqb_eq in E. subst g0. elim Hn. now left.
  - rewrite app_nil_r. cbn [app]. f_equal. apply IH.
    intro H. apply Hn. now right.
Qed.

Lemma members_of_snoc (g : string) (jobs : list JobInfo) (job : JobInfo) :
  members_of g (jobs ++ [job])
  = members_of g jobs ++ if in_gang g job then [job] else [].
Proof.
  unfold members_of. rewrite filter_app. simpl.
  now destruct (in_gang g job).
Qed.

Lemma gang_ids_snoc (jobs : list JobInfo) (job : JobInfo) :
  gang_ids (jobs ++ [job]) = ids_step (gang_ids jobs) job.
Proof. unfold gang_ids. now rewrite fold_left_app. Qed.

Lemma group_step_grouped (groups : dict string (list JobInfo))
      (job : JobInfo) :
  group_step groups job =
    match gang_id job with
    | Some gid => if grouped job then group_append gid job groups else groups
    | None => groups
    end.
Proof.
  unfold group_step, grouped. now destruct (gang_id job).
Qed.

Lemma group_step_groups_of (jobs : list JobInfo) (job : JobInfo) :
  group_step (groups_of jobs) job = groups_of (jobs ++ [job]).
Proof.
  unfold groups_of. rewrite gang_ids_snoc, group_step_grouped.
  unfold ids_step.
  destruct (gang_id job) as [g0|] eqn:Eid.
  - assert (Hin_gang : forall g,
               in_gang g job = grouped job && String.eqb g0 g).
    { intro g. unfold in_gang. now rewrite Eid. }
    destruct (grouped job) eqn:Egr; simpl.
    + destruct (existsb (String.eqb g0) (gang_ids jobs)) eqn:Ex; simpl.
      * apply existsb_eqb_In in Ex.
        rewrite (@group_append_present g0 job (fun g => members_of g jobs)
                   (gang_ids jobs) (gang_ids_NoDup jobs) Ex).
        apply map_ext. intro g. now rewrite members_of_snoc, Hin_gang.
      * assert (Hn : ~ In g0 (gang_ids jobs)).
        { intro H. apply existsb_eqb_In in H. congruence. }
        rewrite (@group_append_absent g0 job (fun g => members_of g jobs)
                   (gang_ids jobs) Hn).
        rewrite map_app. cbn [map]. f_equal.
        -- apply map_ext. intro g. now rewrite members_of_snoc, Hin_gang.
        -- rewrite members_of_snoc, Hin_gang, String.eqb_refl.
           now rewrite (@members_of_absent g0 jobs Hn).
    + apply map_ext. intro g.
      now rewrite members_of_snoc, Hin_gang, app_nil_r.
  - apply map_ext. intro g. rewrite members_of_snoc.
    unfold in_gang. rewrite Eid, andb_false_r. now rewrite app_nil_r.
Qed.

Lemma fold_group_step_groups_of (rest : list JobInfo) :
  forall jobs,
    fold_left group_step rest (groups_of jobs) = groups_of (jobs ++ rest).
Proof.
  induction rest as [|job rest IH]; intro jobs.
  - now rewrite app_nil_r.
  - cbn [fold_left]. rewrite group_step_groups_of, IH.
    now rewrite <- app_assoc.
Qed.

Lemma fold_ids_step_in (jobs : list JobInfo) (g : string) :
  forall seen,
    In g (fold_left ids_step jobs seen) ->
    In g seen \/ exists job, In job jobs /\ in_gang g job = true.
Proof.
  induction jobs as [|j js IH]; intros seen Hs; [now left|].
  cbn [fold_left] in Hs. destruct (IH _ Hs) as [Hin | (x & Hx & Hgx)].
  - unfold ids_step in Hin.
    destruct (gang_id j) as [g'|] eqn:Ej; [|now left].
    destruct (grouped j) eqn:Egr; simpl in Hin; [|now left].
    destruct (existsb (String.eqb g') seen); simpl in Hin; [now left|].
    apply in_app_or in Hin. destruct Hin as [Hin | [<- | []]]; [now left|].
    right. exists j. split; [now left|].
    unfold in_gang. now rewrite Egr, Ej, String.eqb_refl.
  - right. exists x. split; [now right | exact Hgx].
Qed.

Lemma gang_filter_layout (jobs : list JobInfo) :
  handle_gang_scheduling jobs
  = flat_map (fun g => members_of g jobs) (gang_ids jobs)
    ++ filter (fun j => negb (gang_scheduling j)) jobs
  /\ NoDup (gang_ids jobs)
  /\ (forall g, In g (gang_ids jobs) <->
                exists job, In job jobs /\ in_gang g job = true).
Proof.
  split; [|split; [apply gang_ids_NoDup|]].
  - unfold handle_gang_scheduling, gang_groups. f_equal.
    rewrite ready_gangs_concat.
    change (@nil (string * list JobInfo)) with (groups_of []).
    rewrite (fold_group_step_groups_of jobs []). cbn [app].
    unfold groups_of. rewrite map_map. cbn [snd].
    now rewrite flat_map_concat_map.
  - intro g. split.
    + intro Hg. destruct (@fold_ids_step_in jobs g [] Hg) as [[] | H].
      exact H.
    + intros (job & Hin & Hg).
      exact (@fold_ids_step_adds jobs g job Hin Hg []).
Qed.

(** X11.  The filter puts the gang jobs first, gang by gang in the order
    in which the gangs first occur in the pending list, each gang in
    the order of the list; the other jobs follow in the order of the
    list. *)
Theorem X11_gang_filter_layout (jobs : list JobInfo) :
  handle_gang_scheduling jobs
  = flat_map (fun g => members_of g jobs) (gang_ids jobs)
    ++ filter (fun j => negb (gang_scheduling j)) jobs
  /\ NoDup (gang_ids jobs)
  /\ (forall g, In g (gang_ids jobs) <->
                exists job, In job jobs /\ in_gang g job = true).
Proof. exact (gang_filter_layout jobs). Qed.

(** ** Filtering twice *)

Lemma in_gang_grouped (g : string) (job : JobInfo) :
  in_gang g job = true -> grouped job = true.
Proof. unfold in_gang. now intros [H _]%andb_true_iff. Qed.

Lemma in_gang_same (g g' : string) (job : JobInfo) :
  in_gang g job = true -> in_gang g' job = true -> g = g'.
Proof.
  unfold in_gang. intros [_ H]%andb_true_iff [_ H']%andb_true_iff.
  destruct (gang_id job) as [x|]; [|discriminate].
  apply String.eqb_eq in H, H'. congruence.
Qed.

Lemma grouped_gang_scheduling (job : JobInfo) :
  grouped job = true -> gang_scheduling job = true.
Proof. unfold grouped. now intros [H _]%andb_true_iff. Qed.

Lemma ids_step_in_gang (g : string) (job : JobInfo) (seen : list string) :
  in_gang g job = true ->
  ids_step seen job = if existsb (String.eqb g) seen then seen else seen ++ [g].
Proof.
  intro H. unfold ids_step. unfold in_gang in H.
  apply andb_true_iff in H. destruct H as [Hgr Hid].
  destruct (gang_id job) as [x|]; [|discriminate].
  apply String.eqb_eq in Hid. subst x. rewrite Hgr. simpl.
  now destruct (existsb (String.eqb g) seen).
Qed.

Lemma ids_step_single (job : JobInfo) (seen : list string) :
  grouped job = false -> ids_step seen job = seen.
Proof.
  intro H. unfold ids_step. rewrite H. now destruct (gang_id job).
Qed.

Lemma fold_ids_seen_gang (g : string) (l : list JobInfo) (seen : list string) :
  Forall (fun j => in_gang g j = true) l -> In g seen ->
  fold_left ids_step l seen = seen.
Proof.
  intros Hall Hin. induction Hall as [|j l Hj _ IH]; [reflexivity|].
  cbn [fold_left]. rewrite (@ids_step_in_gang g j seen Hj).
  now rewrite (proj2 (existsb_eqb_In g seen) Hin).
Qed.

Lemma fold_ids_new_gang (g : string) (l : list JobInfo) (seen : list string) :
  Forall (fun j => in_gang g j = true) l -> l <> [] -> ~ In g seen ->
  fold_left ids_step l seen = seen ++ [g].
Proof.
  intros Hall Hne Hn. destruct Hall as [|j l Hj Hall]; [now elim Hne|].
  cbn [fold_left]. rewrite (@ids_step_in_gang g j seen Hj).
  destruct (existsb (String.eqb g) seen) eqn:E.
  - apply existsb_eqb_In in E. contradiction.
  - apply (@fold_ids_seen_gang g); [exact Hall|].
    apply in_or_app. right. now left.
Qed.

Lemma fold_ids_singles (l : list JobInfo) (seen : list string) :
  Forall (fun j => grouped j = false) l -> fold_left ids_step l seen = seen.
Proof.
  intro Hall. induction Hall as [|j l Hj _ IH]; [reflexivity|].
  cbn [fold_left]. now rewrite (@ids_step_single j seen Hj).
Qed.

Lemma members_of_all (g : string) (jobs : list JobInfo) :
  Forall (fun j => in_gang g j = true) (members_of g jobs).
Proof. apply Forall_forall. intros j Hj. now apply filter_In in Hj. Qed.

Lemma fold_ids_flat_map (jobs : list JobInfo) (ids : list string) :
  forall seen,
    NoDup ids ->
    (forall g, In g ids -> ~ In g seen) ->
    (forall g, In g ids -> members_of g jobs <> []) ->
    fold_left ids_step (flat_map (fun g => members_of g jobs) ids) seen
    = seen ++ ids.
Proof.
  induction ids as [|g ids IH]; intros seen Hn Hfresh Hne.
  - simpl. now rewrite app_nil_r.
  - inversion Hn as [|g' ids' Hnotin Hn']; subst.
    cbn [flat_map]. rewrite fold_left_app.
    rewrite (@fold_ids_new_gang g (members_of g jobs) seen);
      [ | apply members_of_all | apply Hne; now left | apply Hfresh; now left ].
    rewrite IH; [now rewrite <- app_assoc | exact Hn' | | ].
    + intros x Hx Hin. apply in_app_or in Hin.
      destruct Hin as [Hin | [<- | []]]; [|contradiction].
      apply (Hfresh x); [now right | exact Hin].
    + intros x Hx. apply Hne. now right.
Qed.

Lemma filter_in_gang_flat_map (g : string) (jobs : list JobInfo)
      (ids : list string) :
  NoDup ids ->
  filter (in_gang g) (flat_map (fun g' => members_of g' jobs) ids)
  = if existsb (String.eqb g) ids then members_of g jobs else [].
Proof.
  assert (Hother : forall g', g <> g' ->
             filter (in_gang g) (members_of g' jobs) = []).
  { intros g' Hd.
    destruct (filter (in_gang g) (members_of g' jobs)) as [|j r] eqn:E;
      [reflexivity|].
    assert (Hj : In j (filter (in_gang g) (members_of g' jobs)))
      by (rewrite E; now left).
    apply filter_In in Hj. destruct Hj as [Hj Hg].
    apply filter_In in Hj. destruct Hj as [_ Hg'].
    elim Hd. exact (@in_gang_same g g' j Hg Hg'). }
  assert (Hsame : filter (in_gang g) (members_of g jobs) = members_of g jobs).
  { apply forallb_filter_id. apply forallb_forall. intros j Hj.
    now apply filter_In in Hj. }
  induction ids as [|g' ids IH]; intro Hn; [reflexivity|].
  inversion Hn as [|x ids' Hnotin Hn']; subst.
  cbn [flat_map existsb]. rewrite filter_app, (IH Hn').
  destruct (String.eqb g g') eqn:E.
  - apply String.eqb_eq in E. subst g'. rewrite Hsame. simpl.
    destruct (existsb (String.eqb g) ids) eqn:Ex.
    + apply existsb_eqb_In in Ex. contradiction.
    + now rewrite app_nil_r.
  - apply String.eqb_neq in E. rewrite (Hother g' E). reflexivity.
Qed.

Lemma singles_not_grouped (jobs : list JobInfo) :
  Forall (fun j => grouped j = false)
         (filter (fun j => negb (gang_scheduling j)) jobs).
Proof.
  apply Forall_forall. intros j Hj. apply filter_In in Hj.
  destruct Hj as [_ Hj]. apply negb_true_iff in Hj.
  unfold grouped. now rewrite Hj.
Qed.

Lemma filter_none (A : Type) (f : A -> bool) (l : list A) :
  Forall (fun x => f x = false) l -> filter f l = [].
Proof.
  intro H. induction H as [|x l Hx _ IH]; [reflexivity|].
  simpl. now rewrite Hx.
Qed.

(** X12.  Filtering the output of the gang filter again changes
    nothing. *)
Theorem X12_gang_filter_idempotent (jobs : list JobInfo) :
  handle_gang_scheduling (handle_gang_scheduling jobs)
  = handle_gang_scheduling jobs.
Proof.
  destruct (gang_filter_layout jobs) as (Hout & Hnodup & Hids).
  destruct (gang_filter_layout (handle_gang_scheduling jobs))
    as (Hout2 & _ & _).
  set (gangs := flat_map (fun g => members_of g jobs) (gang_ids jobs)) in *.
  set (singles := filter (fun j => negb (gang_scheduling j)) jobs) in *.
  assert (Hgangs : Forall (fun j => grouped j = true) gangs).
  { apply Forall_forall. intros j Hj. apply in_flat_map in Hj.
    destruct Hj as (g & _ & Hj). apply filter_In in Hj.
    exact (@in_gang_grouped g j (proj2 Hj)). }
  assert (Hids2 : gang_ids (handle_gang_scheduling jobs) = gang_ids jobs).
  { rewrite Hout. unfold gang_ids at 1. rewrite fold_left_app.
    unfold gangs. rewrite fold_ids_flat_map; [| exact Hnodup | | ].
    - cbn [app]. apply fold_ids_singles, singles_not_grouped.
    - intros g _ [].
    - intros g Hg E. apply Hids in Hg. destruct Hg as (j & Hj & Hgj).
      assert (Hm : In j (members_of g jobs)) by (apply filter_In; now split).
      rewrite E in Hm. destruct Hm. }
  assert (Hmem : forall g,
             members_of g (handle_gang_scheduling jobs) = members_of g jobs).
  { intro g. rewrite Hout. unfold members_of at 1. rewrite filter_app.
    unfold gangs. rewrite (@filter_in_gang_flat_map g jobs (gang_ids jobs) Hnodup).
    rewrite (@filter_none _ (in_gang g) singles).
    - rewrite app_nil_r.
      destruct (existsb (String.eqb g) (gang_ids jobs)) eqn:E;
        [reflexivity|].
      symmetry. apply members_of_absent. intro H.
      apply existsb_eqb_In in H. congruence.
    - apply Forall_forall. intros j Hj.
      pose proof (singles_not_grouped jobs) as Hs.
      rewrite Forall_forall in Hs. specialize (Hs j Hj).
      unfold in_gang. now rewrite Hs. }
  assert (Hsingles :
            filter (fun j => negb (gang_scheduling j))
                   (handle_gang_scheduling jobs) = singles).
  { rewrite Hout, filter_app.
    rewrite (@filter_none _ (fun j => negb (gang_scheduling j)) gangs).
    - cbn [app]. apply forallb_filter_id. apply forallb_forall.
      intros j Hj. now apply filter_In in Hj.
    - rewrite Forall_forall in *. intros j Hj.
      now rewrite (@grouped_gang_scheduling j (Hgangs j Hj)). }
  rewrite Hout2, Hids2, Hsingles.
  rewrite (flat_map_ext _ _ Hmem). symmetry. exact Hout.
Qed.

End GangOrderFacts.

(* ================================================================== *)
(** * More on the job observer *)
(* ================================================================== *)

Module ExtractFacts.
Import Py Controller Spec PyFacts ScorerFacts ObserverFacts.
Local Open Scope string_scope.

Section Extract.
Context {FT : FloatText}.

Lemma extract_job_info_some (job : V1Job) (info : JobInfo) :
  _extract_job_info job = Some info ->
  exists res, extract_resources job = Ok res /\ resources info = res.
Proof.
  unfold _extract_job_info.
  destruct (extract_resources job) as [res|e]; simpl; [|discriminate].
  destruct (metadata_annotations job) as [[|entry ann]|];
    intro H; injection H as <-; exists res; split; reflexivity.
Qed.

(** X13.  An extracted job carries the name, the namespace and the
    creation instant of the API object; it is URGENT exactly when the
    annotation priority is approved, a gang job exactly when the
    annotation gang-scheduling reads true in any letter case, and its
    gang id is the annotation gang-id. *)
Theorem X13_extract_metadata (job : V1Job) (info : JobInfo) :
  _extract_job_info job = Some info ->
  name info = metadata_name job
  /\ namespace info = metadata_namespace job
  /\ creation_timestamp info = metadata_creation_timestamp job
  /\ (priority info = URGENT <->
      exists ann, metadata_annotations job = Some ann
                  /\ dict_get String.eqb "priority" ann = Some "approved")
  /\ (gang_scheduling info = true <->
      exists ann v, metadata_annotations job = Some ann
                    /\ dict_get String.eqb "gang-scheduling" ann = Some v
                    /\ lower v = "true")
  /\ gang_id info = match metadata_annotations job with
                    | Some ann => dict_get String.eqb "gang-id" ann
                    | None => None
                    end.
Proof.
  unfold _extract_job_info.
  destruct (extract_resources job) as [res|e]; simpl; [|discriminate].
  destruct (metadata_annotations job) as [ann|] eqn:Eann.
  - assert (Hprio :
              (match dict_get String.eqb "priority" ann with
               | Some v => if String.eqb v "approved" then URGENT else NORMAL
               | None => NORMAL
               end = URGENT)
              <-> dict_get String.eqb "priority" ann = Some "approved").
    { destruct (dict_get String.eqb "priority" ann) as [v|].
      - destruct (String.eqb v "approved") eqn:E.
        + apply String.eqb_eq in E. subst v. tauto.
        + apply String.eqb_neq in E. split; [discriminate|].
          intro H. injection H as H. contradiction.
      - split; discriminate. }
    destruct ann as [|entry ann'].
    + intro H. injection H as <-. cbn [name namespace creation_timestamp
        priority gang_scheduling gang_id].
      repeat split; try discriminate.
      * intros (a & Ha & Hp). injection Ha as <-. discriminate.
      * intros (a & v & Ha & Hv & _). injection Ha as <-. discriminate.
    + set (ann := entry :: ann') in *.
      intro H. injection H as <-. cbn [name namespace creation_timestamp
        priority gang_scheduling gang_id].
      repeat split.
      * intro H. exists ann. split; [reflexivity | now apply Hprio].
      * intros (a & Ha & Hp). injection Ha as <-. now apply Hprio.
      * unfold dict_get_default. intro H.
        destruct (dict_get String.eqb "gang-scheduling" ann) as [v|] eqn:Ev.
        -- exists ann, v. split; [reflexivity|]. split; [exact Ev|].
           now apply String.eqb_eq.
        -- discriminate.
      * intros (a & v & Ha & Hv & Hl). injection Ha as <-.
        unfold dict_get_default. rewrite Hv, Hl. reflexivity.
  - intro H. injection H as <-. cbn [name namespace creation_timestamp
      priority gang_scheduling gang_id].
    repeat split; try discriminate.
    + intros (a & Ha & _). discriminate.
    + intros (a & v & Ha & _). discriminate.
Qed.

(** ** The request vector of an extracted job *)

(** X14.  The request vector of an extracted job has one entry per kind
    at most; it holds a kind exactly when the requests object of the
    first container has the attribute, with the value that the parser
    of that kind returns. *)
Theorem X14_extract_request_vector (job : V1Job) (rq : Requests)
        (info : JobInfo) :
  first_requests job = Some rq ->
  _extract_job_info job = Some info ->
  unique_keys ResourceType_eqb (resources info) = true
  /\ (forall v, resource_get CPU (resources info) = Some v <->
                exists s, cpu rq = Some s /\ _parse_cpu_request s = Ok v)
  /\ (forall v, resource_get MEMORY (resources info) = Some v <->
                exists s, memory rq = Some s /\ _parse_memory_request s = Ok v)
  /\ (forall v, resource_get GPU (resources info) = Some v <->
                exists s, nvidia_com_gpu rq = Some s /\ py_float s = Ok v).
Proof.
  intros Hfirst Hinfo.
  destruct (extract_job_info_some _ Hinfo) as (res & Hres & ->).
  rewrite (extract_resources_first _ Hfirst) in Hres.
  unfold extract_requests in Hres.
  destruct (cpu rq) as [sc|];
    [destruct (_parse_cpu_request sc) as [vc|] eqn:Ec; [|discriminate]|];
    (destruct (memory rq) as [sm|];
     [destruct (_parse_memory_request sm) as [vm|] eqn:Em; [|discriminate]|]);
    (destruct (nvidia_com_gpu rq) as [sg|];
     [destruct (py_float sg) as [vg|] eqn:Eg; [|discriminate]|]);
    simpl in Hres; injection Hres as <-;
    (split; [reflexivity|]);
    repeat split; intros;
    repeat match goal with
           | H : exists _, _ |- _ => destruct H as (? & ? & ?)
           | H : Some _ = Some _ |- _ => injection H as H; subst
           | H : None = Some _ |- _ => discriminate H
           | H : resource_get _ _ = Some _ |- _ => vm_compute in H
           end;
    try discriminate;
    try (eexists; split; [reflexivity | eassumption]);
    try (vm_compute; congruence).
Qed.

(** X15.  A job whose first container gives no requests object is
    always extracted; its request vector is empty, so its dominant share
    is 0 in every cluster. *)
Theorem X15_no_requests_zero_share (job : V1Job) :
  first_requests job = None ->
  exists info,
    _extract_job_info job = Some info
    /\ resources info = []
    /\ forall cluster, calculate_dominant_share info cluster = 0%Q.
Proof.
  intro Hfirst.
  assert (Hres : extract_resources job = Ok []).
  { unfold first_requests in Hfirst. unfold extract_resources.
    destruct (spec_containers job) as [|container rest]; [reflexivity|].
    destruct (container_resources container) as [rr|]; [|reflexivity].
    now rewrite Hfirst. }
  unfold _extract_job_info. rewrite Hres. simpl.
  destruct (metadata_annotations job) as [[|e a]|];
    (eexists; split; [reflexivity|]; split; [reflexivity|];
     intro cluster; reflexivity).
Qed.

(** X16.  The pending list holds exactly the extractions of the listed
    jobs that pass the pending test and whose extraction succeeds; it is
    never longer than the listing, and it is empty when the listing
    call fails. *)
Theorem X16_pending_jobs_membership (items : list V1Job) :
  (forall info,
      In info (get_pending_jobs (Some items)) <->
      exists job, In job items /\ is_pending job = true
                  /\ _extract_job_info job = Some info)
  /\ (List.length (get_pending_jobs (Some items)) <= List.length items)%nat
  /\ get_pending_jobs None = [].
Proof.
  split; [|split; [|reflexivity]]; simpl.
  - intro info. induction items as [|job items IH]; simpl.
    + split; [tauto | intros (j & [] & _)].
    + destruct (is_pending job) eqn:Ep.
      * destruct (_extract_job_info job) as [i|] eqn:Ei.
        -- simpl. rewrite IH. split.
           ++ intros [<- | (j & Hj & Hp & He)].
              ** exists job. auto.
              ** exists j. auto.
           ++ intros (j & [<- | Hj] & Hp & He).
              ** left. congruence.
              ** right. exists j. auto.
        -- rewrite IH. split.
           ++ intros (j & Hj & Hp & He). exists j. auto.
           ++ intros (j & [<- | Hj] & Hp & He); [congruence|].
              exists j. auto.
      * rewrite IH. split.
        -- intros (j & Hj & Hp & He). exists j. auto.
        -- intros (j & [<- | Hj] & Hp & He); [congruence|].
           exists j. auto.
  - induction items as [|job items IH]; simpl; [lia|].
    destruct (is_pending job); [|lia].
    destruct (_extract_job_info job); simpl; lia.
Qed.
End Extract.

Lemma X13_extract_metadata_witness :
  option_map name (@_extract_job_info decimal_text Samples.job_2Gi)
  = Some (metadata_name Samples.job_2Gi).
Proof.
  destruct (@_extract_job_info decimal_text Samples.job_2Gi) as [info|] eqn:E.
  - simpl. f_equal.
    exact (proj1 (@X13_extract_metadata decimal_text Samples.job_2Gi info E)).
  - vm_compute in E. discriminate.
Defined.
Lemma X14_extract_request_vector_witness :
  option_map (fun info => resource_get MEMORY (resources info))
             (@_extract_job_info decimal_text Samples.job_2Gi)
  = Some (Some (2 * 1024)%Q).
Proof.
  destruct (@_extract_job_info decimal_text Samples.job_2Gi) as [info|] eqn:E.
  - simpl. f_equal.
    destruct (@X14_extract_request_vector decimal_text Samples.job_2Gi
                {| cpu := Some "2"; memory := Some "2Gi";
                   nvidia_com_gpu := None |} info eq_refl E)
      as (_ & _ & Hmem & _).
    apply Hmem. exists "2Gi". split; reflexivity.
  - vm_compute in E. discriminate.
Defined.

Lemma X15_no_requests_zero_share_witness :
  exists info,
    @_extract_job_info decimal_text
      {| metadata_name := "bare"; metadata_namespace := "default";
         metadata_creation_timestamp := 0; metadata_annotations := None;
         spec_containers := []; status_phase := "Pending";
         status_conditions := [] |} = Some info
    /\ resources info = [].
Proof.
  destruct (@X15_no_requests_zero_share decimal_text
              {| metadata_name := "bare"; metadata_namespace := "default";
                 metadata_creation_timestamp := 0; metadata_annotations := None;
                 spec_containers := []; status_phase := "Pending";
                 status_conditions := [] |} eq_refl)
    as (info & H1 & H2 & _).
  exists info. split; assumption.
Defined.

End ExtractFacts.

(* ================================================================== *)
(** * Cluster observer *)
(* ================================================================== *)

Module ClusterFacts.
Import Py Controller Kueue Observer Spec PyFacts ScorerFacts ObserverFacts.
Local Open Scope Q_scope.

Lemma three_keys_inv (d : dict ResourceType Q) :
  three_keys d -> exists a b c, d = [(CPU, a); (MEMORY, b); (GPU, c)].
Proof.
  unfold three_keys.
  destruct d as [|[k1 a] [|[k2 b] [|[k3 c] [|]]]]; simpl; try discriminate.
  intro H. injection H as -> -> ->. now exists a, b, c.
Qed.

Lemma dict_add_spec (k : ResourceType) (v : Q) (acc : dict ResourceType Q) :
  three_keys acc ->
  three_keys (dict_add k v acc)
  /\ forall k', value_at (dict_add k v acc) k'
               = if ResourceType_eqb k' k then value_at acc k + v
                 else value_at acc k'.
Proof.
  intro H. destruct (three_keys_inv H) as (a & b & c & ->).
  split; [now destruct k|].
  intro k'. now destruct k, k'.
Qed.

Section Cluster.
Context {FT : FloatText}.

Lemma accumulate_ok (acc acc' : dict ResourceType Q) (q : Requests) :
  three_keys acc -> accumulate acc q = Ok acc' ->
  three_keys acc'
  /\ forall k, value_at acc' k == value_at acc k + quantity q k.
Proof.
  intros Hk. destruct (three_keys_inv Hk) as (a & b & c & ->).
  unfold accumulate, quantity.
  destruct (cpu q) as [sc|];
    [destruct (_parse_cpu_request sc) as [vc|]; [|discriminate]|];
    (destruct (memory q) as [sm|];
     [destruct (_parse_memory_request sm) as [vm|]; [|discriminate]|]);
    (destruct (nvidia_com_gpu q) as [sg|];
     [destruct (py_float sg) as [vg|]; [|discriminate]|]);
    unfold dict_add, dict_get_default;
    cbn [bind dict_set dict_get ResourceType_eqb];
    intro H; injection H as <-;
    (split; [reflexivity|]);
    intros []; unfold value_at, dict_get_default;
    cbn [dict_get ResourceType_eqb]; ring.
Qed.

Lemma accumulate_rejected (acc : dict ResourceType Q) (q : Requests) :
  rejected_field q -> accumulate acc q = Raise ValueError.
Proof.
  unfold accumulate.
  intros [(s & Hs & Hp) | [(s & Hs & Hp) | (s & Hs & Hp)]]; rewrite Hs.
  - rewrite Hp. reflexivity.
  - destruct (cpu q) as [c|]; [destruct (_parse_cpu_request c) as [v|e]|];
      simpl; rewrite ?Hp; simpl; auto using raise_is_ValueError.
  - destruct (cpu q) as [c|]; [destruct (_parse_cpu_request c) as [v|e]|];
      simpl; auto using raise_is_ValueError;
      (destruct (memory q) as [m|];
       [destruct (_parse_memory_request m) as [w|e']|]);
      simpl; rewrite ?Hp; simpl; auto using raise_is_ValueError.
Qed.

Lemma accumulate_raise (acc : dict ResourceType Q) (q : Requests) (e : exn) :
  accumulate acc q = Raise e -> rejected_field q.
Proof.
  unfold accumulate, rejected_field.
  destruct (cpu q) as [sc|] eqn:Ec.
  - destruct (_parse_cpu_request sc) as [vc|ec] eqn:Pc.
    + destruct (memory q) as [sm|] eqn:Em.
      * destruct (_parse_memory_request sm) as [vm|em] eqn:Pm.
        -- destruct (nvidia_com_gpu q) as [sg|] eqn:Eg; [|discriminate].
           destruct (py_float sg) as [vg|eg] eqn:Pg; [discriminate|].
           intros _. right. right. exists sg. destruct eg. auto.
        -- intros _. right. left. exists sm. destruct em. auto.
      * destruct (nvidia_com_gpu q) as [sg|] eqn:Eg; [|discriminate].
        destruct (py_float sg) as [vg|eg] eqn:Pg; [discriminate|].
        intros _. right. right. exists sg. destruct eg. auto.
    + intros _. left. exists sc. destruct ec. auto.
  - destruct (memory q) as [sm|] eqn:Em.
    + destruct (_parse_memory_request sm) as [vm|em] eqn:Pm.
      * destruct (nvidia_com_gpu q) as [sg|] eqn:Eg; [|discriminate].
        destruct (py_float sg) as [vg|eg] eqn:Pg; [discriminate|].
        intros _. right. right. exists sg. destruct eg. auto.
      * intros _. right. left. exists sm. destruct em. auto.
    + destruct (nvidia_com_gpu q) as [sg|] eqn:Eg; [|discriminate].
      destruct (py_float sg) as [vg|eg] eqn:Pg; [discriminate|].
      intros _. right. right. exists sg. destruct eg. auto.
Qed.
Lemma node_step_ok (t0 a0 t a : dict ResourceType Q) (node : V1Node) :
  three_keys t0 -> three_keys a0 ->
  node_step (t0, a0) node = Ok (t, a) ->
  three_keys t /\ three_keys a
  /\ forall k,
      value_at t k == value_at t0 k + opt_quantity (status_capacity node) k
      /\ value_at a k
         == value_at a0 k + opt_quantity (status_allocatable node) k.
Proof.
  intros Ht Ha. unfold node_step, opt_quantity.
  destruct (status_capacity node) as [qc|].
  - destruct (accumulate t0 qc) as [t1|] eqn:Ec; [|discriminate].
    destruct (@accumulate_ok t0 t1 qc Ht Ec) as [Ht1 Hv1].
    destruct (status_allocatable node) as [qa|]; cbn [bind].
    + destruct (accumulate a0 qa) as [a1|] eqn:Ea; [|discriminate].
      destruct (@accumulate_ok a0 a1 qa Ha Ea) as [Ha1 Hw1].
      intro H. injection H as <- <-. auto.
    + intro H. injection H as <- <-.
      repeat split; auto. ring.
  - destruct (status_allocatable node) as [qa|]; cbn [bind].
    + destruct (accumulate a0 qa) as [a1|] eqn:Ea; [|discriminate].
      destruct (@accumulate_ok a0 a1 qa Ha Ea) as [Ha1 Hw1].
      intro H. injection H as <- <-.
      repeat split; auto. ring.
    + intro H. injection H as <- <-.
      repeat split; auto; ring.
Qed.

Lemma node_loop_ok (nodes : list V1Node) :
  forall t0 a0 t a,
    three_keys t0 -> three_keys a0 ->
    node_loop nodes (t0, a0) = Ok (t, a) ->
    three_keys t /\ three_keys a
    /\ forall k,
        value_at t k
        == value_at t0 k
           + sum_nodes (fun n => opt_quantity (status_capacity n) k) nodes
        /\ value_at a k
           == value_at a0 k
              + sum_nodes (fun n => opt_quantity (status_allocatable n) k)
                          nodes.
Proof.
  induction nodes as [|node nodes IH]; intros t0 a0 t a Ht Ha.
  - simpl. intro H. injection H as <- <-.
    repeat split; auto; ring.
  - cbn [node_loop].
    destruct (node_step (t0, a0) node) as [[t1 a1]|] eqn:Es; [|discriminate].
    cbn [bind]. intro Hl.
    destruct (@node_step_ok t0 a0 t1 a1 node Ht Ha Es) as (Ht1 & Ha1 & Hv1).
    destruct (IH t1 a1 t a Ht1 Ha1 Hl) as (Ht2 & Ha2 & Hv2).
    split; [exact Ht2|]. split; [exact Ha2|].
    intro k. destruct (Hv1 k) as [E1 E2]. destruct (Hv2 k) as [E3 E4].
    cbn [sum_nodes fold_right]. split.
    + rewrite E3, E1. unfold sum_nodes. ring.
    + rewrite E4, E2. unfold sum_nodes. ring.
Qed.

(** X17.  The cluster totals are, kind by kind, the sums over the
    listed nodes of the parsed capacity, and the allocated resources the
    sums of the parsed allocatable amounts; a node without the object or
    without the attribute adds 0.  Both dictionaries hold the three
    kinds, whatever the nodes report. *)
Theorem X17_cluster_totals_are_sums (nodes : list V1Node)
        (cluster : ClusterInfo) :
  get_cluster_info (Some nodes) = Ok (Some cluster) ->
  three_keys (total_resources cluster)
  /\ three_keys (allocated_resources cluster)
  /\ forall k,
      total cluster k
      == sum_nodes (fun n => opt_quantity (status_capacity n) k) nodes
      /\ allocatable cluster k
         == sum_nodes (fun n => opt_quantity (status_allocatable n) k) nodes.
Proof.
  unfold get_cluster_info.
  destruct (node_loop nodes (zero_resources, zero_resources))
    as [[t a]|] eqn:El; [|discriminate].
  cbn [bind fst snd]. intro H. injection H as <-.
  destruct (@node_loop_ok nodes zero_resources zero_resources t a
              eq_refl eq_refl El) as (Ht & Ha & Hv).
  split; [exact Ht|]. split; [exact Ha|].
  intro k. destruct (Hv k) as [E1 E2].
  unfold total, allocatable. cbn [total_resources allocated_resources].
  fold (value_at t k). fold (value_at a k). split.
  - rewrite E1. destruct k; vm_compute (value_at zero_resources _); ring.
  - rewrite E2. destruct k; vm_compute (value_at zero_resources _); ring.
Qed.

(** ** Failure of the cluster observation *)

Lemma node_step_bad (acc : dict ResourceType Q * dict ResourceType Q)
      (node : V1Node) :
  bad_node node -> node_step acc node = Raise ValueError.
Proof.
  destruct acc as [t0 a0]. unfold node_step.
  intros [(q & Hq & Hr) | (q & Hq & Hr)]; rewrite Hq.
  - now rewrite (@accumulate_rejected t0 q Hr).
  - rewrite (@accumulate_rejected a0 q Hr).
    destruct (status_capacity node) as [qc|]; [|reflexivity].
    destruct (accumulate t0 qc) as [t1|e]; [reflexivity|].
    apply raise_is_ValueError.
Qed.

Lemma node_step_raise (acc : dict ResourceType Q * dict ResourceType Q)
      (node : V1Node) (e : exn) :
  node_step acc node = Raise e -> bad_node node.
Proof.
  destruct acc as [t0 a0]. unfold node_step, bad_node.
  destruct (status_capacity node) as [qc|].
  - destruct (accumulate t0 qc) as [t1|e1] eqn:Ec.
    + destruct (status_allocatable node) as [qa|]; cbn [bind];
        [|discriminate].
      destruct (accumulate a0 qa) as [a1|e2] eqn:Ea; [discriminate|].
      intros _. right. exists qa. split; [reflexivity|].
      exact (@accumulate_raise a0 qa e2 Ea).
    + intros _. left. exists qc. split; [reflexivity|].
      exact (@accumulate_raise t0 qc e1 Ec).
  - destruct (status_allocatable node) as [qa|]; cbn [bind]; [|discriminate].
    destruct (accumulate a0 qa) as [a1|e2] eqn:Ea; [discriminate|].
    intros _. right. exists qa. split; [reflexivity|].
    exact (@accumulate_raise a0 qa e2 Ea).
Qed.

Lemma node_loop_raise_iff (nodes : list V1Node) :
  forall acc,
    node_loop nodes acc = Raise ValueError <-> Exists bad_node nodes.
Proof.
  induction nodes as [|node nodes IH]; intro acc.
  - simpl. split; [discriminate | intro H; inversion H].
  - cbn [node_loop]. split.
    + destruct (node_step acc node) as [acc'|e] eqn:Es; cbn [bind].
      * intro H. apply Exists_cons_tl. now apply (IH acc').
      * intros _. apply Exists_cons_hd. exact (@node_step_raise acc node e Es).
    + intro H. inversion H as [n l Hbad | n l Hl]; subst.
      * now rewrite (@node_step_bad acc node Hbad).
      * destruct (node_step acc node) as [acc'|e]; cbn [bind].
        -- now apply IH.
        -- apply raise_is_ValueError.
Qed.

(** X18.  The cluster observation answers [None] only when the listing
    call fails.  With a listing, it raises exactly when some node has a
    quantity string that its parser rejects, and yields a cluster
    otherwise: a malformed node quantity is not turned into [None]. *)
Theorem X18_cluster_info_outcomes (nodes : list V1Node) :
  get_cluster_info None = Ok None
  /\ (get_cluster_info (Some nodes) = Raise ValueError <->
      Exists bad_node nodes)
  /\ (~ Exists bad_node nodes ->
      exists cluster, get_cluster_info (Some nodes) = Ok (Some cluster)).
Proof.
  split; [reflexivity|].
  assert (Hiff : get_cluster_info (Some nodes) = Raise ValueError <->
                 Exists bad_node nodes).
  { rewrite <- (node_loop_raise_iff nodes (zero_resources, zero_resources)).
    unfold get_cluster_info.
    destruct (node_loop nodes (zero_resources, zero_resources)) as [acc|e];
      cbn [bind]; [split; discriminate|].
    destruct e. tauto. }
  split; [exact Hiff|].
  intro Hgood. unfold get_cluster_info in *.
  destruct (node_loop nodes (zero_resources, zero_resources)) as [acc|e];
    cbn [bind] in *.
  - now eexists.
  - destruct e. elim Hgood. now apply Hiff.
Qed.
End Cluster.

Lemma X17_cluster_totals_are_sums_witness :
  exists cluster,
    @get_cluster_info decimal_text (Some [Samples.node_gpu; Samples.node_cpu])
    = Ok (Some cluster)
    /\ total cluster MEMORY
       == @sum_nodes (fun n => @opt_quantity decimal_text (status_capacity n) MEMORY)
            [Samples.node_gpu; Samples.node_cpu]
    /\ total cluster MEMORY == 131072.
Proof.
  destruct (@get_cluster_info decimal_text
              (Some [Samples.node_gpu; Samples.node_cpu]))
    as [[cluster|]|] eqn:E; try (vm_compute in E; discriminate).
  exists cluster. split; [reflexivity|].
  destruct (@X17_cluster_totals_are_sums decimal_text
              [Samples.node_gpu; Samples.node_cpu] cluster E)
    as (_ & _ & Hsum).
  destruct (Hsum MEMORY) as [Hm _]. split; [exact Hm|].
  rewrite Hm. vm_compute. reflexivity.
Defined.

Lemma X18_cluster_info_outcomes_witness :
  @get_cluster_info decimal_text (Some [Samples.node_gpu; Samples.node_odd])
  = Raise ValueError.
Proof.
  apply (@X18_cluster_info_outcomes decimal_text
           [Samples.node_gpu; Samples.node_odd]).
  apply Exists_cons_tl, Exists_cons_hd. left.
  eexists. split; [reflexivity|].
  right. left. exists "32G"%string. split; reflexivity.
Defined.

End ClusterFacts.

(* ================================================================== *)
(** * More on the queue updater *)
(* ================================================================== *)

Module UpdaterFacts.
Import Py Controller Kueue Observer Spec PyFacts SortFacts BatchFacts
       KueueFacts TextFacts.
Local Open Scope nat_scope.

Section SortedAgain.
Variable A : Type.
Variable key : A -> Q.

Lemma sorted_by_fixed (l : list A) : ascending key l -> sorted_by key l = l.
Proof.
  unfold ascending. induction 1 as [|a l Hs IH Hall]; [reflexivity|].
  cbn [sorted_by]. rewrite IH. destruct l as [|b l']; [reflexivity|].
  cbn [insert_by].
  inversion Hall as [|b' l'' Hab _]; subst.
  now rewrite (proj2 (Qle_bool_iff (key a) (key b)) Hab).
Qed.
End SortedAgain.

Section Updater.
Context {FT : FloatText} {API : CustomObjectsApi}.

Lemma outcomes_flat (job_priorities : list (JobInfo * Q)) :
  List.concat (outcomes (update_all_job_priorities job_priorities))
  = map patch_job (enumerate 1 (sorted_by snd job_priorities)).
Proof.
  rewrite <- concat_batches. unfold update_all_job_priorities.
  cbn [outcomes batches]. now rewrite concat_map.
Qed.

Lemma fold_sum_results (outs : list (list UpdateOutcome)) :
  forall count,
    fold_left (fun count results => count + sum_results results) outs count
    = count + List.length (filter success (List.concat outs)).
Proof.
  induction outs as [|results outs IH]; intro count; simpl; [lia|].
  rewrite IH, filter_app, List.length_app. unfold sum_results. lia.
Qed.

(** X19.  The updater attempts every job it is given exactly once, in
    rank order; the total of its log line is the number of jobs and the
    success count is the number of attempts that returned true, so it
    never exceeds the total. *)
Theorem X19_every_job_attempted_once (job_priorities : list (JobInfo * Q)) :
  let report := update_all_job_priorities job_priorities in
  let attempts := List.concat (outcomes report) in
  attempts = map patch_job (enumerate 1 (sorted_by snd job_priorities))
  /\ List.length attempts = List.length job_priorities
  /\ total_count report = List.length job_priorities
  /\ success_count report = List.length (filter success attempts)
  /\ success_count report <= total_count report.
Proof.
  intros report attempts.
  assert (Hflat : attempts
                  = map patch_job (enumerate 1 (sorted_by snd job_priorities)))
    by apply outcomes_flat.
  assert (Hlen : List.length attempts = List.length job_priorities).
  { rewrite Hflat, length_map, enumerate_length. apply sorted_by_length. }
  assert (Htotal : total_count report = List.length job_priorities)
    by apply sorted_by_length.
  assert (Hsucc : success_count report = List.length (filter success attempts)).
  { unfold report, update_all_job_priorities. cbn [success_count].
    now rewrite fold_sum_results. }
  repeat split; try assumption.
  rewrite Hsucc, Htotal, <- Hlen. apply filter_length_le.
Qed.

(** X20.  The updater keeps the ranking it is handed: given a list
    already in ascending score order, it numbers the jobs in that very
    order, so the rank it writes is the position in the ranking of
    [calculate_job_priorities]. *)
Theorem X20_updater_keeps_ranking (drf_scheduler : DRFScheduler)
        (clock : nat -> Z) (pending_jobs : list JobInfo)
        (cluster_info : option ClusterInfo) :
  let ranked :=
    calculate_job_priorities drf_scheduler clock pending_jobs cluster_info in
  List.concat (batches (update_all_job_priorities ranked))
  = enumerate 1 ranked.
Proof.
  intro ranked. rewrite concat_batches. f_equal.
  apply sorted_by_fixed. unfold ranked, calculate_job_priorities.
  destruct pending_jobs as [|job jobs]; [constructor|].
  destruct cluster_info as [cluster|]; [|constructor].
  apply sorted_by_ascending.
Qed.

(** ** Finding the workload of a job *)

Lemma find_first (A : Type) (f : A -> bool) (before after : list A) (x : A) :
  Forall (fun y => f y = false) before -> f x = true ->
  find f (before ++ x :: after) = Some x.
Proof.
  intros Hb Hx. induction Hb as [|y before Hy _ IH]; simpl.
  - now rewrite Hx.
  - now rewrite Hy.
Qed.

Lemma find_none_iff (A : Type) (f : A -> bool) (l : list A) :
  find f l = None <-> Forall (fun y => f y = false) l.
Proof.
  induction l as [|y l IH]; simpl.
  - split; [constructor | reflexivity].
  - destruct (f y) eqn:E.
    + split; [discriminate|]. intro H. inversion H; congruence.
    + rewrite IH. split; [now constructor | intro H; now inversion H].
Qed.

(** X21.  The workload patched for a job is the first one of the listing
    whose name contains the job name.  The patch goes to its name and
    namespace with the body built from score and rank, and the update
    returns what the patch call answers. *)
Theorem X21_first_matching_workload_patched
        (job : JobInfo) (priority_score : Q) (rank : nat)
        (before after : list Workload) (workload : Workload) :
  list_cluster_custom_object = Some (before ++ workload :: after) ->
  Forall (fun w => str_contains (name job) (workload_name w) = false) before ->
  str_contains (name job) (workload_name workload) = true ->
  let call := {| patch_namespace := workload_namespace workload;
                 patch_name := workload_name workload;
                 body := patch_body priority_score rank |} in
  update_workload_priority job priority_score rank
  = {| sent := Some call;
       success := patch_namespaced_custom_object call |}.
Proof.
  intros Hlist Hbefore Hmatch call.
  unfold update_workload_priority, _get_workload_for_job.
  rewrite Hlist.
  rewrite (@find_first _ (fun w => str_contains (name job) (workload_name w))
             before after workload Hbefore Hmatch).
  reflexivity.
Qed.

(** X22.  When the listing call fails, or no listed workload has a name
    containing the job name, the update sends no patch and returns
    false; the updater then counts no success for the job. *)
Theorem X22_no_workload_no_patch (job : JobInfo) (priority_score : Q)
        (rank : nat) :
  match list_cluster_custom_object with
  | None => True
  | Some items =>
      Forall (fun w => str_contains (name job) (workload_name w) = false) items
  end ->
  update_workload_priority job priority_score rank
  = {| sent := None; success := false |}.
Proof.
  unfold update_workload_priority, _get_workload_for_job.
  destruct list_cluster_custom_object as [items|]; [|reflexivity].
  intro H. apply find_none_iff in H. now rewrite H.
Qed.

Lemma get_workload_some (job : JobInfo) (w : Workload) :
  _get_workload_for_job job = Some w ->
  str_contains (name job) (workload_name w) = true.
Proof.
  unfold _get_workload_for_job.
  destruct list_cluster_custom_object as [items|]; [|discriminate].
  intro H. now apply find_some in H.
Qed.

(** X23.  Matching by substring lets jobs share a workload.  When the
    name of one job is contained in the name of another, every workload
    found for the second matches the first as well: the first job finds
    a workload whenever the second does, and when the workload of the
    second is at the head of the listing both jobs patch it. *)
Theorem X23_contained_name_shares_workload (job1 job2 : JobInfo)
        (w : Workload) :
  str_contains (name job1) (name job2) = true ->
  _get_workload_for_job job2 = Some w ->
  str_contains (name job1) (workload_name w) = true
  /\ (exists w', _get_workload_for_job job1 = Some w')
  /\ (forall rest, list_cluster_custom_object = Some (w :: rest) ->
                   _get_workload_for_job job1 = Some w).
Proof.
  intros Hsub Hfound.
  pose proof (@get_workload_some job2 w Hfound) as Hw.
  pose proof (@str_contains_trans _ _ _ Hsub Hw) as H1.
  split; [exact H1|]. split.
  - unfold _get_workload_for_job in *.
    destruct list_cluster_custom_object as [items|]; [|discriminate].
    destruct (find (fun workload =>
                      str_contains (name job1) (workload_name workload)) items)
      as [w'|] eqn:E; [now exists w'|].
    apply find_some in Hfound. destruct Hfound as [Hin _].
    pose proof (find_none _ _ E w Hin) as Hn. cbn beta in Hn. congruence.
  - intros rest Hlist. unfold _get_workload_for_job. rewrite Hlist.
    simpl. now rewrite H1.
Qed.
(** ** One pass of the loop *)

Lemma ranked_length (drf_scheduler : DRFScheduler) (clock : nat -> Z)
      (pending_jobs : list JobInfo) (cluster : ClusterInfo) :
  List.length
    (calculate_job_priorities drf_scheduler clock pending_jobs (Some cluster))
  = List.length (handle_gang_scheduling pending_jobs).
Proof.
  unfold calculate_job_priorities.
  destruct pending_jobs as [|job jobs]; [reflexivity|].
  rewrite sorted_by_length. unfold score_jobs.
  now rewrite length_map, enumerate_length.
Qed.

(** X24.  A pass of the loop reaches the updater exactly when the
    controller holds a manager, the cluster observation yields a
    cluster, and some pending job passes the gang filter; the updater
    then receives the ranking of these jobs.  In every other case (no
    pending job, only gang jobs without an id, a failed node listing, a
    rejected node quantity, no manager) the pass sends no patch. *)
Theorem X24_tick_reaches_updater (drf_scheduler : DRFScheduler)
        (clock : nat -> Z) (kueue_manager : bool)
        (job_listing : option (list V1Job))
        (node_listing : option (list V1Node)) (report : UpdateReport) :
  let pending_jobs := get_pending_jobs job_listing in
  tick drf_scheduler clock kueue_manager job_listing node_listing
  = Some report
  <->
  kueue_manager = true
  /\ handle_gang_scheduling pending_jobs <> []
  /\ exists cluster,
      get_cluster_info node_listing = Ok (Some cluster)
      /\ report
         = update_all_job_priorities
             (calculate_job_priorities drf_scheduler clock pending_jobs
                                       (Some cluster)).
Proof.
  intro pending_jobs. unfold tick, observe_and_rank. fold pending_jobs.
  destruct pending_jobs as [|job jobs] eqn:Ep.
  - split; [discriminate|]. intros (_ & H & _). now elim H.
  - destruct (get_cluster_info node_listing) as [[cluster|]|e]; cbn [bind].
    + pose proof (ranked_length drf_scheduler clock (job :: jobs) cluster)
        as Hlen.
      destruct (calculate_job_priorities drf_scheduler clock (job :: jobs)
                  (Some cluster)) as [|r ranked] eqn:Er.
      * split; [discriminate|]. intros (_ & H & _).
        destruct (handle_gang_scheduling (job :: jobs)); [now elim H|].
        discriminate.
      * unfold update_kueue_priorities. destruct kueue_manager.
        -- split.
           ++ intro H. injection H as <-. split; [reflexivity|]. split.
              ** intro E. rewrite E in Hlen. discriminate.
              ** exists cluster. split; [reflexivity | now rewrite Er].
           ++ intros (_ & _ & c & Hc & ->). injection Hc as <-.
              now rewrite Er.
        -- split; [discriminate|]. intros (H & _). discriminate.
    + split; [discriminate|]. intros (_ & _ & c & Hc & _). discriminate.
    + split; [discriminate|]. intros (_ & _ & c & Hc & _). discriminate.
Qed.
End Updater.

Lemma X21_first_matching_workload_patched_witness :
  @update_workload_priority decimal_text Samples.queue_ok
    Samples.job_b (999 + (1 # 8))%Q 1
  = {| sent :=
         Some {| patch_namespace := "default";
                 patch_name := "wl-b-m3p9";
                 body := @patch_body decimal_text (999 + (1 # 8))%Q 1 |};
       success := true |}.
Proof.
  apply (@X21_first_matching_workload_patched decimal_text Samples.queue_ok
           Samples.job_b (999 + (1 # 8))%Q 1
           [ {| workload_name := "wl-a-x7k2"; workload_namespace := "default" |} ]
           []
           {| workload_name := "wl-b-m3p9"; workload_namespace := "default" |});
    [reflexivity | repeat constructor | reflexivity].
Defined.

Lemma X22_no_workload_no_patch_witness :
  @update_workload_priority decimal_text Samples.queue_ok
    Samples.h1 1000%Q 1
  = {| sent := None; success := false |}.
Proof.
  apply (@X22_no_workload_no_patch decimal_text Samples.queue_ok).
  repeat constructor.
Defined.

Lemma X23_contained_name_shares_workload_witness :
  @_get_workload_for_job Samples.queue_ok Samples.job_a
  = Some Samples.a_workload.
Proof.
  refine (proj2 (proj2
            (@X23_contained_name_shares_workload Samples.queue_ok
               Samples.job_a
               (Samples.plain_job "wl-a" NORMAL 0 [])
               Samples.a_workload eq_refl eq_refl)) _ eq_refl).
Defined.

Lemma X24_tick_reaches_updater_witness :
  @tick decimal_text Samples.queue_ok (DRFScheduler_init None) Samples.clock0
        true (Some [Samples.job_2Gi]) (Some [Samples.node_odd])
  = None.
Proof.
  destruct (@tick decimal_text Samples.queue_ok (DRFScheduler_init None)
              Samples.clock0 true (Some [Samples.job_2Gi])
              (Some [Samples.node_odd])) as [report|] eqn:E; [|reflexivity].
  apply (@X24_tick_reaches_updater decimal_text Samples.queue_ok) in E.
  destruct E as (_ & _ & cluster & Hc & _).
  vm_compute in Hc. discriminate.
Defined.

End UpdaterFacts.

(* ================================================================== *)
(** * Queue status *)
(* ================================================================== *)

Module QueueStatusFacts.
Import Py Kueue QueueStatus Spec.

Lemma scan_conditions_admitted (conditions : list Condition) :
  scan_conditions conditions true = negb (existsb is_admitted conditions).
Proof.
  induction conditions as [|c rest IH]; [reflexivity|].
  simpl. unfold is_admitted at 1.
  destruct (opt_eqb (condition_type c) "Admitted"
            && opt_eqb (condition_status c) "True"); [reflexivity | exact IH].
Qed.

(** X25.  The pending workloads are the listed workloads without a
    condition of type Admitted and status True, in the order of the
    listing; a condition Admitted with another status, or of another
    type, does not end the pending state.  The info list names the same
    workloads in the same order, with priority 0 where the workload has
    none, and both lists are empty when the listing call fails. *)
Theorem X25_pending_workloads (items : list WorkloadItem) :
  get_pending_workloads (Some items)
  = filter (fun w => negb (existsb is_admitted (item_conditions w))) items
  /\ map info_name (get_pending_workloads_info (Some items))
     = map (fun w => workload_name (item_metadata w))
           (get_pending_workloads (Some items))
  /\ (forall info, In info (get_pending_workloads_info (Some items)) ->
                   exists w, In w items
                             /\ existsb is_admitted (item_conditions w) = false
                             /\ info_priority info
                                = match item_priority w with
                                  | Some p => p
                                  | None => 0%Z
                                  end)
  /\ get_pending_workloads None = []
  /\ get_pending_workloads_info None = [].
Proof.
  assert (H1 : get_pending_workloads (Some items)
               = filter (fun w => negb (existsb is_admitted (item_conditions w)))
                        items).
  { simpl. induction items as [|w items IH]; [reflexivity|].
    simpl. rewrite scan_conditions_admitted, IH. reflexivity. }
  split; [exact H1|]. split; [|split; [|split; reflexivity]].
  - unfold get_pending_workloads_info. now rewrite map_map.
  - intros info Hin. unfold get_pending_workloads_info in Hin.
    apply in_map_iff in Hin. destruct Hin as (w & <- & Hw).
    rewrite H1 in Hw. apply filter_In in Hw. destruct Hw as [Hw Hc].
    exists w. split; [exact Hw|]. split; [|reflexivity].
    now apply negb_true_iff.
Qed.

End QueueStatusFacts.
